(** * Broken-link checker (qc/check_broken_links.py): a shallow embedding

    The embedding follows the Python source function by function.  The
    outside world (URL parsing, the HTTP client, the clock, the file
    system, the HTML parser) is an explicit parameter of the functions
    that use it.  Time is counted in milliseconds, as an integer. *)

From Stdlib Require Import ZArith String Ascii List Lia.
From stdpp Require Import base option list strings gmap fin_maps sets.

Local Open Scope string_scope.
Local Open Scope list_scope.
Local Open Scope Z_scope.

(** ** Python string operations *)

Module Py.

(** [s.startswith(p)] *)
Definition startswith (s p : string) : bool := String.prefix p s.

(** [needle in hay] on strings *)
Fixpoint contains (needle hay : string) : bool :=
  String.prefix needle hay ||
  match hay with
  | EmptyString => false
  | String _ rest => contains needle rest
  end.

(** [s.endswith(p)] where [p] is one character *)
Fixpoint ends_with_char (c : ascii) (s : string) : bool :=
  match s with
  | EmptyString => false
  | String a EmptyString => Ascii.eqb a c
  | String _ rest => ends_with_char c rest
  end.

End Py.

(** ** Domain delays *)

(** [get_domain_delay]: 2.0 s, 3.0 s and 0.5 s, in milliseconds. *)
Definition get_domain_delay (domain : string) : Z :=
  if Py.contains "doi.org" domain || Py.contains "jstor.org" domain then 2000
  else if Py.contains "oed.com" domain || Py.contains "britishmuseum.org" domain
       then 3000
       else 500.

(** ** The world a check runs in *)

(** What one HTTP request comes back with: a response (status line) or a
    [requests.exceptions.RequestException] carrying its text. *)
Inductive http_result :=
| Response (status_code : Z) (reason : string)
| Failure (text : string).

(** One request/response exchange and the time it takes. *)
Record exchange := Exchange { outcome : http_result; elapsed : Z }.

(** How the remote end answers the HEAD and the GET of one URL. *)
Record server := Server { on_head : exchange; on_get : exchange }.

Inductive event :=
| Acquire (domain : string)
| Release (domain : string)
| Sleep (ms : Z)
| Head (url : string) (sent : Z)
| Get (url : string) (sent : Z)
| Stamp (domain : string) (t : Z).

(** Process state: the clock, the module-level [domain_last_request]
    (a [defaultdict(float)]: a missing domain reads as 0) and the events
    so far, oldest first. *)
Record world := World {
  clock : Z;
  domain_last_request : gmap string Z;
  trace : list event
}.

Inductive exn :=
| RequestException (text : string)
| ValueError (text : string).

Inductive res (A : Type) :=
| Ok (a : A)
| Raise (e : exn).
Arguments Ok {A} a.
Arguments Raise {A} e.

(** State and exceptions. *)
Definition M (A : Type) : Type := world → res A * world.

#[global] Instance M_ret : MRet M := λ A a w, (Ok a, w).
#[global] Instance M_bind : MBind M := λ A B f m w,
  match m w with
  | (Ok a, w') => f a w'
  | (Raise e, w') => (Raise e, w')
  end.

(** [try: body except requests.exceptions.RequestException as e: handler];
    any other exception passes through. *)
Definition try_except {A} (body : M A) (handler : string → M A) : M A :=
  λ w, match body w with
       | (Ok a, w') => (Ok a, w')
       | (Raise (RequestException text), w') => handler text w'
       | (Raise e, w') => (Raise e, w')
       end.

Definition emit (e : event) : M unit :=
  λ w, (Ok tt, World (clock w) (domain_last_request w) (trace w ++ [e])%list).

Definition advance (ms : Z) : M unit :=
  λ w, (Ok tt, World (clock w + ms) (domain_last_request w) (trace w)).

(** [time.time()] *)
Definition time_time : M Z := λ w, (Ok (clock w), w).

(** [time.sleep(ms)] *)
Definition time_sleep (ms : Z) : M unit :=
  _ ← emit (Sleep ms); advance ms.

(** [domain_last_request[domain]] *)
Definition last_request (domain : string) : M Z :=
  λ w, (Ok (default 0 (domain_last_request w !! domain)), w).

(** [domain_last_request[domain] = t] *)
Definition set_last_request (domain : string) (t : Z) : M unit :=
  λ w, (Ok tt, World (clock w) (<[domain := t]> (domain_last_request w))
                     (trace w ++ [Stamp domain t])%list).

(** [with domain_locks[domain]: body]; the lock is released on every exit. *)
Definition with_lock {A} (domain : string) (body : M A) : M A :=
  λ w, let '(r, w1) := body (World (clock w) (domain_last_request w)
                                   (trace w ++ [Acquire domain])%list) in
       (r, World (clock w1) (domain_last_request w1) (trace w1 ++ [Release domain])%list).

Definition raise {A} (e : exn) : M A := λ w, (Raise e, w).

Definition respond (x : exchange) : M (Z * string) :=
  _ ← advance (elapsed x);
  match outcome x with
  | Response status_code reason => mret (status_code, reason)
  | Failure text => raise (RequestException text)
  end.

Section Checker.

(** The netloc that [urlparse(url).netloc] returned at line 138; what
    follows is the function from there on.  The call itself, which can
    raise, is in [check_url_with_rate_limit_parsing] below. *)
Variable netloc : string → string.
(** The remote end, per URL: what [requests] gets back, a response or a
    [RequestException], for the HEAD and for the GET. *)
Variable remote : string → server.

(** [requests.head(url, ...)] *)
Definition requests_head (url : string) : M (Z * string) :=
  now ← time_time; _ ← emit (Head url now); respond (on_head (remote url)).

(** [requests.get(url, ...)] *)
Definition requests_get (url : string) : M (Z * string) :=
  now ← time_time; _ ← emit (Get url now); respond (on_get (remote url)).

Definition stamp_now (domain : string) : M unit :=
  now ← time_time; set_last_request domain now.

Definition check_url_with_rate_limit (url : string) : M (option Z * string) :=
  let domain := netloc url in
  let delay := get_domain_delay domain in
  with_lock domain (
    now ← time_time;
    last ← last_request domain;
    let time_since_last := now - last in
    _ ← (if time_since_last <? delay
         then time_sleep (delay - time_since_last) else mret tt);
    try_except
      ('(status_code, reason) ← requests_head url;
       _ ← stamp_now domain;
       if (status_code =? 405) || (status_code =? 406) then
         try_except
           ('(status_code2, reason2) ← requests_get url;
            if status_code2 =? 200
            then mret (Some status_code2, reason2 +:+ " (works with browser headers)")
            else mret (Some status_code2, reason2))
           (λ _, mret (Some status_code, reason +:+ " (HEAD only, may work in browser)"))
       else mret (Some status_code, reason))
      (λ e,
        try_except
          ('(status_code, reason) ← requests_get url;
           _ ← stamp_now domain;
           mret (Some status_code, reason +:+ " (GET only)"))
          (λ e2, _ ← stamp_now domain; mret (None, e2)))).

(** [check_url_batch]: the URLs of one batch, in sequence. *)
Fixpoint check_url_batch_from (results : gmap string (option Z * string))
    (urls_batch : list string) : M (gmap string (option Z * string)) :=
  match urls_batch with
  | [] => mret results
  | url :: rest =>
      r ← check_url_with_rate_limit url;
      check_url_batch_from (<[url := r]> results) rest
  end.

Definition check_url_batch (urls_batch : list string)
  : M (gmap string (option Z * string)) :=
  check_url_batch_from ∅ urls_batch.

End Checker.

Section Parsing.

(** [urlparse(url).netloc]: the netloc, or the exception [urlparse] raises
    (a [ValueError], for instance on unbalanced brackets in the netloc). *)
Variable urlparse_netloc : string → res string.
Variable remote : string → server.

(** The netloc of a URL that [urlparse] accepts. *)
Definition parsed_netloc (url : string) : string :=
  match urlparse_netloc url with
  | Ok domain => domain
  | Raise _ => EmptyString
  end.

(** The whole of [check_url_with_rate_limit]: line 138 is outside the
    [with] and the [try], so what [urlparse] raises leaves the function
    before any lock is taken or request sent. *)
Definition check_url_with_rate_limit_parsing (url : string)
  : M (option Z * string) :=
  match urlparse_netloc url with
  | Ok _ => check_url_with_rate_limit parsed_netloc remote url
  | Raise e => raise e
  end.



End Parsing.

(** ** Batches (phase 4 of [main]) *)

Definition batch_size : nat := 20.

(** [range(0, stop, step)] *)
Definition py_range (stop step : nat) : list nat :=
  (λ k, k * step)%nat <$> seq 0 ((stop + step - 1) / step)%nat.

(** [l[i:j]] for [0 <= i <= j]; Python clamps both ends to [len(l)]. *)
Definition slice {A} (l : list A) (i j : nat) : list A :=
  take (j - i) (drop i l).

(** The loop that fills [url_batches]. *)
Definition url_batches (unique_urls_list : list string) : list (list string) :=
  (λ i, slice unique_urls_list i (i + batch_size)) <$>
  py_range (length unique_urls_list) batch_size.

(** [d.update(other)]: the entries of [other] win. *)
Definition dict_update {V} (d other : gmap string V) : gmap string V :=
  other ∪ d.

(** [url_status] after the [as_completed] loop has merged the batch
    results in the order [completed] in which the batches finished. *)
Definition merge_batches {V} (completed : list (gmap string V)) : gmap string V :=
  foldl dict_update ∅ completed.

(** ** The report (phase 5 of [main]) *)

Definition works_marker : string := "works with browser headers".
Definition maybe_marker : string := "may work in browser".

(** [status_code is None or status_code >= 400] *)
Definition is_failing (status_code : option Z) : bool :=
  match status_code with
  | None => true
  | Some c => 400 <=? c
  end.

(** The if/elif/else that sets [category]. *)
Definition categorize (reason : string) : string :=
  if Py.contains works_marker reason then "browser_ok"
  else if Py.contains maybe_marker reason then "maybe_ok"
  else "broken".

(** Third field of an issue: the text MISSING or the status code. *)
Inductive issue_status :=
| Missing
| Status (status_code : option Z).

Record issue := Issue {
  issue_type : string;
  issue_url : string;
  issue_status_of : issue_status;
  issue_reason : string;
  issue_category : string
}.

(** What one remote check result adds to [file_issues]: nothing when the
    check did not fail. *)
Definition remote_issue (link_type url : string) (r : option Z * string)
  : option issue :=
  let '(status_code, reason) := r in
  if is_failing status_code
  then Some (Issue link_type url (Status status_code) reason (categorize reason))
  else None.

Definition local_issue (link_type url : string) (r : bool * string)
  : option issue :=
  let '(found, reason) := r in
  if found then None else Some (Issue link_type url Missing reason "broken").

(** [file_issues] of one HTML file; [None] stands for the [KeyError] of a
    link that has no recorded status. *)
Fixpoint file_issues (local_file_status : gmap string (bool * string))
    (url_status : gmap string (option Z * string))
    (links : list (string * string)) : option (list issue) :=
  match links with
  | [] => Some []
  | (link_type, url) :: rest =>
      entry ← (if String.eqb link_type "local_image"
               then local_issue link_type url <$> local_file_status !! url
               else remote_issue link_type url <$> url_status !! url);
      more ← file_issues local_file_status url_status rest;
      Some (option_list entry ++ more)%list
  end.

(** The category under which the report lists a URL with this result. *)
Definition report_category (r : option Z * string) : option string :=
  issue_category <$> remote_issue "link" "" r.

(** ** Local files *)

Module posixpath.

Definition sep : ascii := "/"%char.

Fixpoint has_sep (p : string) : bool :=
  match p with
  | EmptyString => false
  | String c rest => Ascii.eqb c sep || has_sep rest
  end.

(** [p[:p.rfind('/') + 1]] *)
Fixpoint upto_last_sep (p : string) : string :=
  match p with
  | EmptyString => EmptyString
  | String c rest =>
      if has_sep rest then String c (upto_last_sep rest)
      else if Ascii.eqb c sep then String c EmptyString
      else EmptyString
  end.

(** [s == '/' * len(s)] *)
Fixpoint all_sep (s : string) : bool :=
  match s with
  | EmptyString => true
  | String c rest => Ascii.eqb c sep && all_sep rest
  end.

(** [s.rstrip('/')] *)
Fixpoint rstrip_sep (s : string) : string :=
  match s with
  | EmptyString => EmptyString
  | String c rest =>
      let r := rstrip_sep rest in
      if Ascii.eqb c sep && String.eqb r "" then EmptyString else String c r
  end.

Definition dirname (p : string) : string :=
  let head := upto_last_sep p in
  if negb (String.eqb head "") && negb (all_sep head)
  then rstrip_sep head else head.

(** [os.path.join(a, b)] with two arguments *)
Definition join (a b : string) : string :=
  if Py.startswith b "/" then b
  else if String.eqb a "" || Py.ends_with_char sep a then a +:+ b
  else a +:+ "/" +:+ b.

End posixpath.

Section LocalFiles.

(** [os.path.exists] *)
Variable path_exists : string → bool.

Definition check_local_file (file_path html_dir : string) : bool * string :=
  let full_path := posixpath.join html_dir file_path in
  if path_exists full_path then (true, "File exists")
  else
    let project_root := posixpath.dirname html_dir in
    let full_path := posixpath.join project_root file_path in
    if path_exists full_path then (true, "File exists")
    else (false, "File not found").

End LocalFiles.

(** [html_dir] in [main] *)
Definition html_dir : string := "../html".

(** ** Link extraction *)

(** A parsed tag: its name and its attributes. *)
Record tag := Tag { tag_name : string; tag_attrs : list (string * string) }.

(** [t[key]] when the attribute is present *)
Fixpoint assoc (key : string) (attrs : list (string * string)) : option string :=
  match attrs with
  | [] => None
  | (k, v) :: rest => if String.eqb k key then Some v else assoc key rest
  end.

(** [soup.find_all(name, key=True)] followed by reading [tag[key]]: the
    values of attribute [key] of the tags called [name], in document order. *)
Definition find_all (soup : list tag) (name key : string) : list string :=
  omap (λ t, if String.eqb (tag_name t) name then assoc key (tag_attrs t) else None)
       soup.

Definition links_of_a (href : string) : list (string * string) :=
  if Py.startswith href "http" then [("link", href)] else [].

Definition links_of_img (src : string) : list (string * string) :=
  if Py.startswith src "http" then [("image", src)]
  else if negb (Py.startswith src "#") && negb (Py.startswith src "data:")
       then [("local_image", src)]
       else [].

Definition links_of_link (href : string) : list (string * string) :=
  if Py.startswith href "http" then [("resource", href)] else [].

(** [extract_links_from_html]; the argument is the parsed file, or [None]
    when reading or parsing it raised. *)
Definition extract_links_from_html (parsed : option (list tag))
  : list (string * string) :=
  match parsed with
  | None => []
  | Some soup =>
      ((find_all soup "a" "href" ≫= links_of_a) ++
       (find_all soup "img" "src" ≫= links_of_img) ++
       (find_all soup "link" "href" ≫= links_of_link))%list
  end.

(** The number of anchor, image and link tags of a document. *)
Definition is_ref_tag (t : tag) : bool :=
  String.eqb (tag_name t) "a" || String.eqb (tag_name t) "img"
  || String.eqb (tag_name t) "link".

Definition count_ref_tags (soup : list tag) : nat :=
  length (filter (λ t, is_ref_tag t = true) soup).

(** * Notions used in the statements *)

(** No proper end of [needle] starts [back]: an occurrence of [needle]
    cannot begin in the text before [back] and finish inside it. *)
Fixpoint no_overlap (needle back : string) : bool :=
  match needle with
  | EmptyString => true
  | String _ rest => negb (String.prefix needle back) && no_overlap rest back
  end.

Definition head_only_suffix : string := " (HEAD only, may work in browser)".
Definition get_only_suffix : string := " (GET only)".

(** The pair a check returns, read off the two exchanges. *)
Definition verdict (s : server) : option Z * string :=
  match outcome (on_head s) with
  | Response sc reason =>
      if (sc =? 405) || (sc =? 406) then
        match outcome (on_get s) with
        | Response sc2 reason2 =>
            if sc2 =? 200
            then (Some sc2, reason2 +:+ " (works with browser headers)")
            else (Some sc2, reason2)
        | Failure _ => (Some sc, reason +:+ head_only_suffix)
        end
      else (Some sc, reason)
  | Failure _ =>
      match outcome (on_get s) with
      | Response sc2 reason2 => (Some sc2, reason2 +:+ get_only_suffix)
      | Failure e2 => (None, e2)
      end
  end.

(** Whether the HEAD was answered with 405 or 406. *)
Definition head_rejected (s : server) : bool :=
  match outcome (on_head s) with
  | Response sc _ => (sc =? 405) || (sc =? 406)
  | Failure _ => false
  end.

Definition head_failed (s : server) : bool :=
  match outcome (on_head s) with
  | Response _ _ => false
  | Failure _ => true
  end.

(** How long the check waits before its HEAD. *)
Definition wait_of (domain : string) (w : world) : option Z :=
  let time_since_last := clock w - default 0 (domain_last_request w !! domain) in
  if time_since_last <? get_domain_delay domain
  then Some (get_domain_delay domain - time_since_last) else None.

(** The clock when the HEAD is sent. *)
Definition head_sent (domain : string) (w : world) : Z :=
  clock w + default 0 (wait_of domain w).

(** The events of one check. *)
Definition check_events (domain url : string) (s : server) (w : world)
  : list event :=
  let t0 := head_sent domain w in
  let t1 := t0 + elapsed (on_head s) in
  let t2 := t1 + elapsed (on_get s) in
  ([Acquire domain] ++ option_list (Sleep <$> wait_of domain w) ++ [Head url t0] ++
   (if head_failed s then [Get url t1; Stamp domain t2]
    else if head_rejected s then [Stamp domain t1; Get url t1]
    else [Stamp domain t1]) ++
   [Release domain])%list.

(** The timestamp a check leaves for its domain. *)
Definition check_stamp (domain : string) (s : server) (w : world) : Z :=
  let t1 := head_sent domain w + elapsed (on_head s) in
  if head_failed s then t1 + elapsed (on_get s) else t1.

(** The clock when the check returns. *)
Definition check_end (domain : string) (s : server) (w : world) : Z :=
  let t1 := head_sent domain w + elapsed (on_head s) in
  if head_failed s || head_rejected s then t1 + elapsed (on_get s) else t1.

(** A simplified [urlparse(url).netloc] for the examples: the text between
    the first [://] and the next [/], [?] or [#]; empty without [://]. *)
Fixpoint until_delim (s : string) : string :=
  match s with
  | EmptyString => EmptyString
  | String c rest =>
      if Ascii.eqb c "/" || Ascii.eqb c "?" || Ascii.eqb c "#" then EmptyString
      else String c (until_delim rest)
  end.

Fixpoint simple_netloc (url : string) : string :=
  match url with
  | EmptyString => EmptyString
  | String c rest =>
      if Ascii.eqb c ":" then
        match rest with
        | String "/" (String "/" authority) => until_delim authority
        | _ => EmptyString
        end
      else simple_netloc rest
  end.


(** Whether [urlparse] returns for a URL. *)
Definition accepted (urlparse_netloc : string → res string) (url : string) : bool :=
  match urlparse_netloc url with
  | Ok _ => true
  | Raise _ => false
  end.

(** A remote end that answers every URL the same way. *)
Definition always (head get : http_result) : string → server :=
  λ _, Server (Exchange head 120) (Exchange get 340).

(** A process that has made no request yet. *)
Definition fresh_world : world := World 1700000000000 ∅ [].

Definition is_get (e : event) : bool :=
  match e with Get _ _ => true | _ => false end.

Definition is_head (e : event) : bool :=
  match e with Head _ _ => true | _ => false end.

(** The number of GET requests in a trace. *)
Definition gets_sent (tr : list event) : nat :=
  length (filter (λ e, is_get e = true) tr).

(** The number of HEAD requests in a trace. *)
Definition heads_sent (tr : list event) : nat :=
  length (filter (λ e, is_head e = true) tr).

(** Whether a text the remote end supplies, and the check can return,
    contains [works with browser headers] by itself: the reason phrase of
    the HEAD answer, the reason phrase of the GET answer or the text of
    the GET transport error. *)
Definition echoes_works_marker (s : server) : bool :=
  match outcome (on_head s) with
  | Response _ reason => Py.contains works_marker reason
  | Failure _ => false
  end
  || match outcome (on_get s) with
     | Response _ reason => Py.contains works_marker reason
     | Failure text => Py.contains works_marker text
     end.

(** No URL is a key of two batches. *)
Definition disjoint_batches {V} (batches : list (gmap string V)) : Prop :=
  ∀ i j b1 b2, i ≠ j → batches !! i = Some b1 → batches !! j = Some b2 →
               dom b1 ## dom b2.

(** The chunks of [step] elements of [l], from chunk [first] on. *)
Definition chunks {A} (step : nat) (l : list A) (first count : nat)
  : list (list A) :=
  (λ k, take step (drop (k * step)%nat l)) <$> seq first count.

(** A file system in which only [../images/fig1.png] exists. *)
Definition only_in_project_root (path : string) : bool :=
  String.eqb path "../images/fig1.png".

(** The rule of the claim, tag by tag, written from its words: the tuple
    an anchor, an image or a link tag stands for, if it stands for one. *)

(** An anchor whose [href] starts with [http] is a link. *)
Definition link_tuple (t : tag) : option (string * string) :=
  if String.eqb (tag_name t) "a" then
    match assoc "href" (tag_attrs t) with
    | Some href => if Py.startswith href "http" then Some ("link", href) else None
    | None => None
    end
  else None.

(** An image whose [src] starts with [http] is an image; with another
    [src], it is a local image unless the [src] starts with [#] or with
    [data:]. *)
Definition image_tuple (t : tag) : option (string * string) :=
  if String.eqb (tag_name t) "img" then
    match assoc "src" (tag_attrs t) with
    | Some src =>
        if Py.startswith src "http" then Some ("image", src)
        else if Py.startswith src "#" || Py.startswith src "data:" then None
        else Some ("local_image", src)
    | None => None
    end
  else None.

(** A link tag whose [href] starts with [http] is a resource. *)
Definition resource_tuple (t : tag) : option (string * string) :=
  if String.eqb (tag_name t) "link" then
    match assoc "href" (tag_attrs t) with
    | Some href => if Py.startswith href "http" then Some ("resource", href) else None
    | None => None
    end
  else None.

Definition is_sleep (e : event) : bool :=
  match e with Sleep _ => true | _ => false end.

(** * The rest of [main] *)

(** ** Phase 1: the links of every file *)

(** [all_links] after phase 1: each HTML file with what
    [extract_links_from_html] returned for it, in the order of
    [html_files]. *)
Definition collect_links (html_files : list (string * option (list tag)))
  : list (string * list (string * string)) :=
  (λ f, (f.1, extract_links_from_html f.2)) <$> html_files.

(** [total_links] *)
Definition total_links (all_links : list (string * list (string * string))) : nat :=
  foldl (λ n f, (n + length f.2)%nat) 0%nat all_links.

(** ** Phase 2: the unique targets *)

(** One step of the inner loop: the pair is [(unique_urls,
    unique_local_files)]. *)
Definition add_link (sets : gset string * gset string) (link : string * string)
  : gset string * gset string :=
  let '(unique_urls, unique_local_files) := sets in
  let '(link_type, url) := link in
  if String.eqb link_type "local_image"
  then (unique_urls, {[url]} ∪ unique_local_files)
  else ({[url]} ∪ unique_urls, unique_local_files).

Definition unique_targets (all_links : list (string * list (string * string)))
  : gset string * gset string :=
  foldl (λ sets f, foldl add_link sets f.2) (∅, ∅) all_links.

(** ** Phase 3: the local files *)

(** [local_file_status] after the loop over the local files, visited in
    the order [files]. *)
Definition check_local_files (path_exists : string → bool) (files : list string)
  : gmap string (bool * string) :=
  foldl (λ status file_path,
           <[file_path := check_local_file path_exists file_path html_dir]> status)
        ∅ files.

(** ** Phase 4: collecting the batch results *)

(** [sum(1 for status, _ in batch_results.values()
         if status is None or status >= 400)] *)
Definition batch_broken (batch_results : gmap string (option Z * string)) : nat :=
  length (filter (λ kv : string * (option Z * string), is_failing kv.2.1 = true)
                 (map_to_list batch_results)).

Record progress := Progress {
  url_status : gmap string (option Z * string);
  broken_url_count : nat;
  completed_batches : nat
}.

(** The body of the [as_completed] loop for one finished batch. *)
Definition collect_batch (p : progress)
    (batch_results : gmap string (option Z * string)) : progress :=
  Progress (dict_update (url_status p) batch_results)
           (broken_url_count p + batch_broken batch_results)
           (S (completed_batches p)).

Definition collect_batches (completed : list (gmap string (option Z * string)))
  : progress :=
  foldl collect_batch (Progress ∅ 0 0) completed.

(** ** Phase 5: the report, with its counters *)

Record tally := Tally {
  broken_count : nat;
  browser_working_count : nat;
  definitely_broken_count : nat
}.

(** The body of the loop over the links of one file: [file_issues] and the
    three counters after the link; [None] stands for the [KeyError] of a
    target without a recorded status. *)
Definition scan_link (local_file_status : gmap string (bool * string))
    (url_status : gmap string (option Z * string))
    (st : list issue * tally) (link : string * string)
  : option (list issue * tally) :=
  let '(file_issues, t) := st in
  let '(link_type, url) := link in
  if String.eqb link_type "local_image" then
    match local_file_status !! url : option (bool * string) with
    | None => None
    | Some (found, reason) =>
        if found then Some (file_issues, t)
        else Some (file_issues ++ [Issue link_type url Missing reason "broken"],
                   Tally (S (broken_count t)) (browser_working_count t)
                         (S (definitely_broken_count t)))
    end
  else
    match url_status !! url : option (option Z * string) with
    | None => None
    | Some (status_code, reason) =>
        if is_failing status_code then
          if Py.contains works_marker reason then
            Some (file_issues ++
                    [Issue link_type url (Status status_code) reason "browser_ok"],
                  Tally (S (broken_count t)) (S (browser_working_count t))
                        (definitely_broken_count t))
          else if Py.contains maybe_marker reason then
            Some (file_issues ++
                    [Issue link_type url (Status status_code) reason "maybe_ok"],
                  Tally (S (broken_count t)) (S (browser_working_count t))
                        (definitely_broken_count t))
          else
            Some (file_issues ++
                    [Issue link_type url (Status status_code) reason "broken"],
                  Tally (S (broken_count t)) (browser_working_count t)
                        (S (definitely_broken_count t)))
        else Some (file_issues, t)
    end.

Fixpoint scan_links (local_file_status : gmap string (bool * string))
    (url_status : gmap string (option Z * string))
    (st : list issue * tally) (links : list (string * string))
  : option (list issue * tally) :=
  match links with
  | [] => Some st
  | link :: rest =>
      st' ← scan_link local_file_status url_status st link;
      scan_links local_file_status url_status st' rest
  end.

(** The loop over [all_links.items()]: [broken_links] (the files that have
    issues, with them) and the counters. *)
Fixpoint scan_files (local_file_status : gmap string (bool * string))
    (url_status : gmap string (option Z * string))
    (st : list (string * list issue) * tally)
    (all_links : list (string * list (string * string)))
  : option (list (string * list issue) * tally) :=
  match all_links with
  | [] => Some st
  | (html_file, links) :: rest =>
      match scan_links local_file_status url_status ([], st.2) links with
      | None => None
      | Some (file_issues, t) =>
          scan_files local_file_status url_status
            (match file_issues with
             | [] => st.1
             | _ :: _ => st.1 ++ [(html_file, file_issues)]
             end, t) rest
      end
  end.

(** [[item for item in file_issues if item[4] == category]] *)
Definition in_category (category : string) (file_issues : list issue) : list issue :=
  filter (λ item, issue_category item = category) file_issues.

(** The counters after counting the issues [issues] by category, starting
    from [t]. *)
Definition count_issues (t : tally) (issues : list issue) : tally :=
  Tally (broken_count t + length issues)
        (browser_working_count t + length (in_category "browser_ok" issues)
         + length (in_category "maybe_ok" issues))
        (definitely_broken_count t + length (in_category "broken" issues)).

(** The three categories of the report. *)
Definition known_category (category : string) : Prop :=
  category = "broken" ∨ category = "browser_ok" ∨ category = "maybe_ok".

(** Sample data for the instances. *)

(** The result of one batch of two URLs, one of them broken. *)
Definition two_urls : list string := ["https://a.example/"; "https://b.example/x"].

Definition two_urls_remote (url : string) : server :=
  if String.eqb url "https://a.example/"
  then Server (Exchange (Response 200 "OK") 80) (Exchange (Response 200 "OK") 90)
  else Server (Exchange (Response 404 "Not Found") 80)
              (Exchange (Response 404 "Not Found") 90).

Definition two_urls_result : gmap string (option Z * string) :=
  match (check_url_batch simple_netloc two_urls_remote two_urls fresh_world).1 with
  | Ok r => r
  | Raise _ => ∅
  end.


(** Two files: the first links to both URLs and shows a local image, the
    second links to the first URL only. *)
Definition sample_links : list (string * list (string * string)) :=
  [("index.html", [("link", "https://a.example/");
                   ("local_image", "img/x.png");
                   ("link", "https://b.example/x")]);
   ("about.html", [("link", "https://a.example/")])].

(** * Properties *)

(** ** Strings *)

Lemma contains_cons needle c hay :
  Py.contains needle (String c hay) =
  String.prefix needle (String c hay) || Py.contains needle hay.
Proof. reflexivity. Qed.

(** A reason that has the marker at its end-side suffix keeps it whatever
    text comes first. *)
Lemma contains_app_r needle front back :
  Py.contains needle back = true → Py.contains needle (front +:+ back) = true.
Proof.
  intros Hback. induction front as [|c front IH]; [exact Hback|].
  change (String c front +:+ back) with (String c (front +:+ back)).
  rewrite contains_cons, IH. apply orb_true_r.
Qed.

Lemma prefix_app_inv needle front back :
  no_overlap needle back = true →
  String.prefix needle (front +:+ back) = true →
  String.prefix needle front = true.
Proof.
  revert needle. induction front as [|c front IH]; intros needle Hno Hpre.
  - destruct needle as [|a needle]; [reflexivity|].
    cbn [no_overlap] in Hno. apply andb_true_iff in Hno as [Hno _].
    change ("" +:+ back) with back in Hpre. rewrite Hpre in Hno. discriminate.
  - destruct needle as [|a needle]; [reflexivity|].
    cbn [no_overlap] in Hno. apply andb_true_iff in Hno as [_ Hno].
    change (String c front +:+ back) with (String c (front +:+ back)) in Hpre.
    cbn [String.prefix] in *. destruct (ascii_dec a c); [|discriminate].
    by apply IH.
Qed.

Lemma contains_app_inv needle front back :
  no_overlap needle back = true →
  Py.contains needle back = false →
  Py.contains needle front = false →
  Py.contains needle (front +:+ back) = false.
Proof.
  intros Hno Hback. induction front as [|c front IH]; intros Hfront.
  - exact Hback.
  - rewrite contains_cons in Hfront. apply orb_false_iff in Hfront as [Hp Hc].
    change (String c front +:+ back) with (String c (front +:+ back)).
    rewrite contains_cons, (IH Hc), orb_false_r.
    destruct (String.prefix needle (String c (front +:+ back))) eqn:Hpre; [|done].
    apply (prefix_app_inv needle (String c front) back Hno) in Hpre. congruence.
Qed.

Lemma works_marker_head_only reason :
  Py.contains works_marker reason = false →
  Py.contains works_marker (reason +:+ head_only_suffix) = false.
Proof. apply contains_app_inv; reflexivity. Qed.

Lemma works_marker_get_only reason :
  Py.contains works_marker reason = false →
  Py.contains works_marker (reason +:+ get_only_suffix) = false.
Proof. apply contains_app_inv; reflexivity. Qed.

Lemma maybe_marker_head_only reason :
  Py.contains maybe_marker (reason +:+ head_only_suffix) = true.
Proof. by apply contains_app_r. Qed.

Lemma works_marker_works reason :
  Py.contains works_marker (reason +:+ " (works with browser headers)") = true.
Proof. by apply contains_app_r. Qed.

(** ** Domain delays *)

Lemma get_domain_delay_values domain :
  get_domain_delay domain = 2000 ∨ get_domain_delay domain = 3000
  ∨ get_domain_delay domain = 500.
Proof.
  unfold get_domain_delay.
  destruct (_ || _); [by left|]. destruct (_ || _); [right; by left|right; by right].
Qed.

Example get_domain_delay_jstor : get_domain_delay "www.jstor.org" = 2000.
Proof. reflexivity. Qed.

Example get_domain_delay_oed : get_domain_delay "www.oed.com" = 3000.
Proof. reflexivity. Qed.

Example get_domain_delay_default : get_domain_delay "example.org" = 500.
Proof. reflexivity. Qed.

(** ** One check, in closed form *)

Ltac run_check :=
  unfold check_url_with_rate_limit, with_lock, try_except, requests_head,
    requests_get, stamp_now, respond, time_sleep, time_time, last_request,
    set_last_request, emit, advance, raise, mbind, M_bind, mret, M_ret;
  cbn [clock domain_last_request trace fst snd].

Section CheckerFacts.

Variable netloc : string → string.
Variable remote : string → server.

Abbreviation check := (check_url_with_rate_limit netloc remote).

Lemma check_url_with_rate_limit_run url w :
  check url w =
  (Ok (verdict (remote url)),
   World (check_end (netloc url) (remote url) w)
         (<[netloc url := check_stamp (netloc url) (remote url) w]>
            (domain_last_request w))
         (trace w ++ check_events (netloc url) url (remote url) w)).
Proof.
  run_check.
  unfold verdict, check_events, check_stamp, check_end, head_sent, wait_of,
    head_failed, head_rejected.
  destruct (remote url) as [[oh eh] [og eg]]; cbn [on_head on_get outcome elapsed].
  destruct (_ <? _); cbn [clock domain_last_request trace fst snd default
    from_option id option_list fmap option_fmap option_map app];
    destruct oh as [sc r1|e1]; cbn [clock domain_last_request trace fst snd orb].
  all: try (destruct ((sc =? 405) || (sc =? 406)));
    destruct og as [sc2 r2|e2]; cbn [clock domain_last_request trace fst snd];
    try (destruct (sc2 =? 200));
    rewrite ?Z.add_0_r;
    unfold option_list;
    repeat first [rewrite <- app_assoc
                 | progress cbn [app option_rect clock domain_last_request trace]];
    reflexivity.
Qed.

Lemma check_url_with_rate_limit_result url w :
  (check url w).1 = Ok (verdict (remote url)).
Proof. by rewrite check_url_with_rate_limit_run. Qed.

(** The HEAD of a check is sent no sooner than the domain's delay after
    the timestamp the previous check of that domain left. *)
Lemma head_sent_respects_delay domain w :
  default 0 (domain_last_request w !! domain) + get_domain_delay domain
  ≤ head_sent domain w.
Proof.
  unfold head_sent, wait_of.
  destruct (_ <? _) eqn:Hlt; cbn [default from_option id].
  - lia.
  - apply Z.ltb_ge in Hlt. lia.
Qed.

(** Two checks of one domain, one right after the other in one thread:
    the second HEAD is sent at least the delay after the timestamp of the
    first check. *)
Lemma consecutive_checks_gap url1 url2 w :
  netloc url1 = netloc url2 →
  let w1 := (check url1 w).2 in
  check_stamp (netloc url1) (remote url1) w + get_domain_delay (netloc url2)
  ≤ head_sent (netloc url2) w1.
Proof.
  intros Hdom. cbn zeta. rewrite check_url_with_rate_limit_run.
  etrans; [|apply head_sent_respects_delay].
  cbn [snd domain_last_request]. rewrite <- Hdom, lookup_insert_eq. done.
Qed.

Lemma check_url_batch_from_run urls results w :
  ∃ w', check_url_batch_from netloc remote results urls w =
        (Ok (foldl (λ m url, <[url := verdict (remote url)]> m) results urls), w').
Proof.
  revert results w. induction urls as [|url urls IH]; intros results w.
  - by eexists.
  - cbn [check_url_batch_from foldl]. unfold mbind, M_bind.
    rewrite check_url_with_rate_limit_run. apply IH.
Qed.


End CheckerFacts.

(** ** A rejected HEAD followed by a successful GET *)

Lemma verdict_head_rejected_get_200 s sc r1 r2 :
  outcome (on_head s) = Response sc r1 → sc = 405 ∨ sc = 406 →
  outcome (on_get s) = Response 200 r2 →
  verdict s = (Some 200, r2 +:+ " (works with browser headers)").
Proof.
  intros Hh Hsc Hg. unfold verdict. rewrite Hh, Hg. by destruct Hsc as [-> | ->].
Qed.

Lemma status_200_not_reported link_type url reason :
  remote_issue link_type url (Some 200, reason) = None.
Proof. reflexivity. Qed.

(** C1. A URL whose HEAD is answered 405 Method Not Allowed and whose GET
    is answered 200 OK: the check returns status 200 with the reason
    [OK (works with browser headers)], and the report, which lists only
    results with no status or a status of 400 and more, gives the URL no
    category at all; it is not listed as browser_ok. *)
Theorem head_405_get_200_gets_no_category :
  let url := "https://example.org/page" in
  let remote := always (Response 405 "Method Not Allowed") (Response 200 "OK") in
  let r := (Some 200, "OK (works with browser headers)") in
  (check_url_with_rate_limit simple_netloc remote url fresh_world).1 = Ok r
  ∧ report_category r = None
  ∧ report_category r ≠ Some "browser_ok"
  ∧ file_issues ∅ {[url := r]} [("link", url)] = Some [].
Proof.
  cbn zeta. rewrite check_url_with_rate_limit_result.
  split; [reflexivity|]. split; [reflexivity|]. split; [discriminate|].
  vm_compute. reflexivity.
Qed.

(** ** Transport failures *)

Lemma filter_length_app {A} (P : A → Prop) `{!∀ x, Decision (P x)} (l k : list A) :
  length (filter P (l ++ k)) = (length (filter P l) + length (filter P k))%nat.
Proof. by rewrite filter_app, length_app. Qed.

Lemma gets_sent_check domain url s w :
  gets_sent (check_events domain url s w) =
  if head_failed s || head_rejected s then 1%nat else 0%nat.
Proof.
  unfold gets_sent, check_events.
  destruct (wait_of domain w), (head_failed s), (head_rejected s); reflexivity.
Qed.

Lemma heads_sent_check domain url s w :
  heads_sent (check_events domain url s w) = 1%nat.
Proof.
  unfold heads_sent, check_events.
  destruct (wait_of domain w), (head_failed s), (head_rejected s); reflexivity.
Qed.

Section ParsingFacts.

Variable urlparse_netloc : string → res string.
Variable remote : string → server.

Lemma check_parsing_accepted url :
  accepted urlparse_netloc url = true →
  check_url_with_rate_limit_parsing urlparse_netloc remote url
  = check_url_with_rate_limit (parsed_netloc urlparse_netloc) remote url.
Proof.
  unfold accepted, check_url_with_rate_limit_parsing.
  by destruct (urlparse_netloc url).
Qed.

Lemma check_parsing_rejected url e w :
  urlparse_netloc url = Raise e →
  check_url_with_rate_limit_parsing urlparse_netloc remote url w = (Raise e, w).
Proof. unfold check_url_with_rate_limit_parsing. by intros ->. Qed.


Lemma check_parsing_counts url w :
  accepted urlparse_netloc url = true →
  let w' := (check_url_with_rate_limit_parsing urlparse_netloc remote url w).2 in
  heads_sent (trace w') = S (heads_sent (trace w))
  ∧ gets_sent (trace w') =
      (gets_sent (trace w)
       + if head_failed (remote url) || head_rejected (remote url) then 1 else 0)%nat.
Proof.
  intros Hacc. cbn zeta. rewrite check_parsing_accepted by done.
  rewrite check_url_with_rate_limit_run. cbn [snd trace].
  unfold heads_sent, gets_sent. rewrite !filter_length_app.
  fold (heads_sent (check_events (parsed_netloc urlparse_netloc url) url
                      (remote url) w)).
  fold (gets_sent (check_events (parsed_netloc urlparse_netloc url) url
                     (remote url) w)).
  rewrite heads_sent_check, gets_sent_check. split; lia.
Qed.




End ParsingFacts.




(** ** A rejected HEAD followed by a failed GET *)

(** C7, as amended. When the HEAD is answered 405 or 406 and the GET fails
    with a transport error, the check returns the HEAD status and the HEAD
    reason followed by [(HEAD only, may work in browser)]; the report
    lists the URL as maybe_ok provided the reason phrase of the HEAD
    answer does not contain [works with browser headers]. *)
Theorem head_rejected_get_failed_is_maybe_ok netloc remote url w sc reason e2 :
  outcome (on_head (remote url)) = Response sc reason →
  sc = 405 ∨ sc = 406 →
  outcome (on_get (remote url)) = Failure e2 →
  (check_url_with_rate_limit netloc remote url w).1
    = Ok (Some sc, reason +:+ " (HEAD only, may work in browser)")
  ∧ Py.contains maybe_marker (reason +:+ " (HEAD only, may work in browser)") = true
  ∧ (Py.contains works_marker reason = false →
     report_category (Some sc, reason +:+ " (HEAD only, may work in browser)")
       = Some "maybe_ok").
Proof.
  intros Hh Hsc Hg. rewrite check_url_with_rate_limit_result.
  split; [|split].
  - unfold verdict. rewrite Hh, Hg. by destruct Hsc as [-> | ->].
  - apply maybe_marker_head_only.
  - intros Hw. unfold report_category, remote_issue, categorize.
    fold head_only_suffix.
    rewrite (works_marker_head_only _ Hw), maybe_marker_head_only.
    by destruct Hsc as [-> | ->].
Qed.

Lemma head_rejected_get_failed_is_maybe_ok_witness :
  (check_url_with_rate_limit simple_netloc
     (always (Response 405 "Method Not Allowed") (Failure "Read timed out"))
     "https://example.org/a" fresh_world).1
    = Ok (Some 405, "Method Not Allowed (HEAD only, may work in browser)")
  ∧ report_category (Some 405, "Method Not Allowed (HEAD only, may work in browser)")
    = Some "maybe_ok".
Proof.
  destruct (head_rejected_get_failed_is_maybe_ok simple_netloc
              (always (Response 405 "Method Not Allowed") (Failure "Read timed out"))
              "https://example.org/a" fresh_world 405 "Method Not Allowed"
              "Read timed out" eq_refl (or_introl eq_refl) eq_refl)
    as (Hrun & _ & Hcat).
  split; [exact Hrun|]. apply Hcat. reflexivity.
Defined.

(** C7, as stated, fails: the reason phrase is chosen by the server.  A
    405 answer whose reason phrase is [works with browser headers], with a
    failing GET, is listed as browser_ok, since the report tests for that
    text first. *)
Lemma head_rejected_get_failed_listed_as_browser_ok :
  let remote := always (Response 405 "works with browser headers")
                       (Failure "Read timed out") in
  let r := (Some 405, "works with browser headers (HEAD only, may work in browser)") in
  (check_url_with_rate_limit simple_netloc remote "https://example.org/a"
     fresh_world).1 = Ok r
  ∧ report_category r = Some "browser_ok"
  ∧ report_category r ≠ Some "maybe_ok".
Proof.
  cbn zeta. rewrite check_url_with_rate_limit_result.
  split; [reflexivity|]. split; [vm_compute; reflexivity|].
  vm_compute. discriminate.
Qed.

(** ** Where the text [works with browser headers] can come from *)

Lemma verdict_works_marker s status reason :
  echoes_works_marker s = false →
  verdict s = (status, reason) →
  Py.contains works_marker reason = true →
  status = Some 200.
Proof.
  unfold echoes_works_marker, verdict. intros Hquiet Hv Hin.
  apply orb_false_iff in Hquiet as [Hqh Hqg].
  destruct (outcome (on_head s)) as [sc r1|e1],
           (outcome (on_get s)) as [sc2 r2|e2].
  - destruct ((sc =? 405) || (sc =? 406)).
    + destruct (sc2 =? 200) eqn:H200; simplify_eq.
      * apply Z.eqb_eq in H200. by subst.
      * congruence.
    + simplify_eq. congruence.
  - destruct ((sc =? 405) || (sc =? 406)); simplify_eq.
    + rewrite (works_marker_head_only _ Hqh) in Hin. discriminate.
    + congruence.
  - simplify_eq. rewrite (works_marker_get_only _ Hqg) in Hin. discriminate.
  - simplify_eq. congruence.
Qed.

Lemma report_category_browser_ok status reason :
  report_category (status, reason) = Some "browser_ok" →
  is_failing status = true ∧ Py.contains works_marker reason = true.
Proof.
  unfold report_category, remote_issue, categorize.
  destruct (is_failing status); [|discriminate]. cbn.
  destruct (Py.contains works_marker reason); [done|].
  destruct (Py.contains maybe_marker reason); discriminate.
Qed.

(** C9, as amended. Provided that neither reason phrase sent by the remote
    end nor the text of the GET transport error itself contains
    [works with browser headers], a check result whose reason contains
    that text has status 200; such a result is not a failing one, and the
    report never lists the URL as browser_ok. *)
Theorem works_marker_only_with_status_200 netloc remote url w status reason :
  echoes_works_marker (remote url) = false →
  (check_url_with_rate_limit netloc remote url w).1 = Ok (status, reason) →
  (Py.contains works_marker reason = true →
   status = Some 200 ∧ is_failing status = false)
  ∧ report_category (status, reason) ≠ Some "browser_ok".
Proof.
  intros Hquiet Hrun. rewrite check_url_with_rate_limit_result in Hrun.
  injection Hrun as Hv.
  assert (Hmark : Py.contains works_marker reason = true →
                  status = Some 200 ∧ is_failing status = false).
  { intros Hin. pose proof (verdict_works_marker _ _ _ Hquiet Hv Hin) as ->.
    by split. }
  split; [exact Hmark|].
  intros Hcat. apply report_category_browser_ok in Hcat as [Hfail Hin].
  destruct (Hmark Hin) as [_ Hok]. congruence.
Qed.

Lemma works_marker_only_with_status_200_witness :
  (Some 200 = Some 200 ∧ is_failing (Some 200) = false)
  ∧ report_category (Some 200, "OK (works with browser headers)")
    ≠ Some "browser_ok".
Proof.
  destruct (works_marker_only_with_status_200 simple_netloc
              (always (Response 405 "Method Not Allowed") (Response 200 "OK"))
              "https://example.org/a" fresh_world (Some 200)
              "OK (works with browser headers)" eq_refl eq_refl) as [Hmark Hcat].
  split; [apply Hmark; reflexivity|exact Hcat].
Defined.

(** C9, as stated, fails: the reason phrase is chosen by the server.  A
    404 answer to the HEAD whose reason phrase is
    [works with browser headers] is returned as it is, with status 404,
    and the report lists the URL as browser_ok. *)
Lemma works_marker_with_status_404 :
  let remote := always (Response 404 "works with browser headers")
                       (Response 404 "Not Found") in
  let r := (Some 404, "works with browser headers") in
  (check_url_with_rate_limit simple_netloc remote "https://example.org/a"
     fresh_world).1 = Ok r
  ∧ Py.contains works_marker r.2 = true
  ∧ r.1 ≠ Some 200
  ∧ report_category r = Some "browser_ok".
Proof.
  cbn zeta. rewrite check_url_with_rate_limit_result.
  split; [reflexivity|]. split; [vm_compute; reflexivity|].
  split; [discriminate|]. vm_compute. reflexivity.
Qed.

(** ** The timestamp a check leaves behind *)

(** C10. A check changes [domain_last_request] for its own domain only,
    inside the lock.  When the HEAD is answered 405 or 406 the timestamp
    is the clock reading after the HEAD answer: it is written before the
    GET is sent and not again, so the check returns later than the
    timestamp by the time the GET took.  On the other two paths (HEAD
    answered otherwise; HEAD failed and a GET was tried) the timestamp is
    written after the last request and equals the clock when the check
    returns. *)
Theorem timestamp_after_head_not_after_retry netloc remote url w :
  let d := netloc url in
  let s := remote url in
  let w' := (check_url_with_rate_limit netloc remote url w).2 in
  let sleeps := option_list (Sleep <$> wait_of d w) in
  let t0 := head_sent d w in
  let t1 := t0 + elapsed (on_head s) in
  if head_rejected s then
    domain_last_request w' = <[d := t1]> (domain_last_request w)
    ∧ clock w' = t1 + elapsed (on_get s)
    ∧ trace w' = trace w ++ [Acquire d] ++ sleeps ++
                 [Head url t0; Stamp d t1; Get url t1; Release d]
  else if head_failed s then
    domain_last_request w' = <[d := clock w']> (domain_last_request w)
    ∧ clock w' = t1 + elapsed (on_get s)
    ∧ trace w' = trace w ++ [Acquire d] ++ sleeps ++
                 [Head url t0; Get url t1; Stamp d (clock w'); Release d]
  else
    domain_last_request w' = <[d := clock w']> (domain_last_request w)
    ∧ clock w' = t1
    ∧ trace w' = trace w ++ [Acquire d] ++ sleeps ++
                 [Head url t0; Stamp d (clock w'); Release d].
Proof.
  cbn zeta. rewrite check_url_with_rate_limit_run.
  cbn [snd clock domain_last_request trace].
  unfold check_stamp, check_end, check_events, head_failed, head_rejected.
  destruct (outcome (on_head (remote url))) as [sc r1|e1].
  - destruct ((sc =? 405) || (sc =? 406)); cbn [orb]; done.
  - cbn [orb]. done.
Qed.

(** ** Merging batch results *)

Section Merge.

Context {V : Type}.
Implicit Types (b acc : gmap string V) (l batches completed : list (gmap string V)).

Lemma dom_foldl_dict_update acc l :
  dom (foldl dict_update acc l) = dom acc ∪ ⋃ (dom <$> l).
Proof.
  revert acc. induction l as [|b l IH]; intros acc; cbn [foldl fmap list_fmap].
  - cbn. by rewrite (right_id_L ∅ (∪)).
  - rewrite IH. unfold dict_update. rewrite dom_union_L. cbn.
    by rewrite (comm_L (∪) (dom b)), (assoc_L (∪)).
Qed.

Lemma dom_merge_batches l : dom (merge_batches l) = ⋃ (dom <$> l).
Proof.
  unfold merge_batches.
  by rewrite dom_foldl_dict_update, dom_empty_L, (left_id_L ∅ (∪)).
Qed.

Lemma union_list_dom_perm l1 l2 :
  l1 ≡ₚ l2 → (⋃ (dom <$> l1) : gset string) = ⋃ (dom <$> l2).
Proof.
  intros Hperm. apply set_eq. intros k. rewrite !elem_of_union_list.
  split; intros (X & HX & Hk); exists X; split; try done.
  - by rewrite <- Hperm.
  - by rewrite Hperm.
Qed.

Lemma lookup_foldl_dict_update acc l k v :
  foldl dict_update acc l !! k = Some v →
  acc !! k = Some v ∨ ∃ b, b ∈ l ∧ b !! k = Some v.
Proof.
  revert acc. induction l as [|b l IH]; intros acc; cbn [foldl]; [by left|].
  intros Hk. apply IH in Hk as [Hk | (b' & Hin & Hk)].
  - unfold dict_update in Hk. apply lookup_union_Some_raw in Hk as [Hk | [_ Hk]].
    + right. exists b. split; [apply list_elem_of_here|done].
    + by left.
  - right. exists b'. split; [by apply list_elem_of_further|done].
Qed.

Lemma lookup_merge_batches l k v :
  merge_batches l !! k = Some v → ∃ b, b ∈ l ∧ b !! k = Some v.
Proof.
  intros Hk. apply lookup_foldl_dict_update in Hk as [Hk | Hk]; [|done].
  by rewrite lookup_empty in Hk.
Qed.

Lemma disjoint_batches_same_key batches b1 b2 k :
  disjoint_batches batches → b1 ∈ batches → b2 ∈ batches →
  is_Some (b1 !! k) → is_Some (b2 !! k) → b1 = b2.
Proof.
  intros Hdis [i Hi]%list_elem_of_lookup [j Hj]%list_elem_of_lookup H1 H2.
  destruct (decide (i = j)) as [->|Hne]; [congruence|].
  pose proof (Hdis i j b1 b2 Hne Hi Hj) as Hd.
  apply elem_of_dom in H1, H2. set_solver.
Qed.

(** C4. The batch result maps have pairwise disjoint key sets, and
    [completed] lists them in the order in which the batches finished.
    The merged [url_status] has as keys the union of the key sets of the
    batches, and every batch keeps each of its entries in it. *)
Theorem merged_keys_are_union_of_batch_keys batches completed :
  completed ≡ₚ batches →
  disjoint_batches batches →
  dom (merge_batches completed) = ⋃ (dom <$> batches)
  ∧ ∀ b, b ∈ batches → b ⊆ merge_batches completed.
Proof.
  intros Hperm Hdis.
  assert (Hdom : dom (merge_batches completed) = ⋃ (dom <$> batches)).
  { rewrite dom_merge_batches. by apply union_list_dom_perm. }
  split; [exact Hdom|].
  intros b Hb. apply map_subseteq_spec. intros k v Hkv.
  assert (Hin : k ∈ dom (merge_batches completed)).
  { rewrite Hdom. apply elem_of_union_list. exists (dom b). split.
    - apply list_elem_of_fmap. by exists b.
    - apply elem_of_dom. by exists v. }
  apply elem_of_dom in Hin as [v' Hv'].
  destruct (lookup_merge_batches _ _ _ Hv') as (b' & Hb' & Hkv').
  rewrite Hperm in Hb'.
  assert (b = b') as <-.
  { by eapply (disjoint_batches_same_key batches b b' k). }
  congruence.
Qed.

End Merge.

Lemma merged_keys_are_union_of_batch_keys_witness :
  let b1 : gmap string (option Z * string) := {["https://a.example/" := (Some 200, "OK")]} in
  let b2 : gmap string (option Z * string) := {["https://b.example/" := (Some 404, "Not Found")]} in
  dom (merge_batches [b2; b1]) = ⋃ (dom <$> [b1; b2])
  ∧ ∀ b, b ∈ [b1; b2] → b ⊆ merge_batches [b2; b1].
Proof.
  cbn zeta. apply merged_keys_are_union_of_batch_keys.
  - apply Permutation_swap.
  - intros i j c1 c2 Hne Hi Hj.
    destruct i as [|[|i]], j as [|[|j]]; simplify_eq/=;
      rewrite !dom_singleton_L; apply disjoint_singleton_l;
      rewrite elem_of_singleton; discriminate.
Defined.

(** ** Splitting the URLs into batches *)

Section Batches.

Local Open Scope nat_scope.

Context {A : Type}.
Implicit Types (l : list A) (ls : list (list A)).

Lemma concat_chunks step l first count :
  concat (chunks step l first count) =
  take (count * step) (drop (first * step) l).
Proof.
  unfold chunks. revert first.
  induction count as [|count IH]; intros first; [done|].
  cbn [seq]. rewrite fmap_cons. cbn [concat].
  rewrite IH. replace (S first * step) with (first * step + step) by lia.
  rewrite <- drop_drop, take_take_drop. f_equal.
Qed.

Lemma ceil_div_bounds n :
  n ≤ (n + batch_size - 1) / batch_size * batch_size < n + batch_size.
Proof.
  unfold batch_size.
  pose proof (Nat.div_mod_eq (n + 20 - 1) 20).
  pose proof (Nat.mod_upper_bound (n + 20 - 1) 20). lia.
Qed.

Lemma elem_of_concat_lookup ls x :
  x ∈ concat ls ↔ ∃ i b, ls !! i = Some b ∧ x ∈ b.
Proof.
  induction ls as [|c ls IH]; cbn [concat].
  - split; [by intros ?%elem_of_nil|by intros (i & b & ? & _)].
  - rewrite elem_of_app, IH. split.
    + intros [Hx | (i & b & Hi & Hx)]; [by exists 0, c|by exists (S i), b].
    + intros ([|i] & b & Hi & Hx); simplify_eq/=; [by left|right; eauto].
Qed.

Lemma NoDup_concat_lookup ls i j bi bj x :
  NoDup (concat ls) → ls !! i = Some bi → ls !! j = Some bj →
  x ∈ bi → x ∈ bj → i = j.
Proof.
  revert i j. induction ls as [|c ls IH]; intros i j Hnd Hi Hj Hxi Hxj; [done|].
  cbn [concat] in Hnd. apply NoDup_app in Hnd as (_ & Hsep & Hnd).
  destruct i as [|i], j as [|j]; simplify_eq/=; [done| | |].
  - exfalso. apply (Hsep x Hxi). apply elem_of_concat_lookup. eauto.
  - exfalso. apply (Hsep x Hxj). apply elem_of_concat_lookup. eauto.
  - f_equal. by eapply IH.
Qed.

End Batches.

Section UrlBatches.

Local Open Scope nat_scope.

Lemma url_batches_chunks (urls : list string) :
  url_batches urls =
  chunks batch_size urls 0 ((length urls + batch_size - 1) / batch_size).
Proof.
  unfold url_batches, py_range, chunks. rewrite <- list_fmap_compose.
  apply list_fmap_ext. intros _ k _. unfold compose, slice.
  by replace (k * batch_size + batch_size - k * batch_size)
    with batch_size by lia.
Qed.

Lemma url_batches_lookup (urls : list string) i b :
  url_batches urls !! i = Some b →
  b = take batch_size (drop (i * batch_size) urls)
  ∧ i * batch_size < length urls
  ∧ (S i < length (url_batches urls) → S i * batch_size ≤ length urls).
Proof.
  rewrite url_batches_chunks. unfold chunks.
  rewrite length_fmap, length_seq.
  intros (k & -> & [-> Hlt]%lookup_seq)%list_lookup_fmap_Some.
  pose proof (ceil_div_bounds (length urls)) as Hb. cbn [Nat.add].
  split; [done|]. split; [nia|]. intros Hnext. nia.
Qed.

(** C8. The list of the unique URLs is cut into consecutive chunks of 20:
    the chunks put end to end give the list back, chunk [i] holds the
    elements from position [20 * i] on, every chunk but the last has 20
    URLs, the last one has between 1 and 20, and every URL is in exactly
    one chunk. *)
Theorem url_batches_partition (unique_urls_list : list string) :
  NoDup unique_urls_list →
  let batches := url_batches unique_urls_list in
  concat batches = unique_urls_list
  ∧ (∀ i b, batches !! i = Some b →
       b = take 20 (drop (20 * i) unique_urls_list)
       ∧ (1 ≤ length b ≤ 20)%nat
       ∧ ((S i < length batches)%nat → length b = 20%nat))
  ∧ (∀ url, url ∈ unique_urls_list →
       ∃ i, (∃ b, batches !! i = Some b ∧ url ∈ b)
            ∧ ∀ j b, batches !! j = Some b → url ∈ b → j = i).
Proof.
  intros Hnd batches.
  assert (Hcat : concat batches = unique_urls_list).
  { unfold batches. rewrite url_batches_chunks, concat_chunks. cbn [Nat.mul drop].
    apply take_ge. apply ceil_div_bounds. }
  split; [exact Hcat|]. split.
  - intros i b Hi. apply url_batches_lookup in Hi as (-> & Hlt & Hfull).
    fold batches in Hfull. unfold batch_size in *.
    rewrite length_take, length_drop.
    split; [f_equal; f_equal; lia|]. split; [lia|].
    intros Hnext. specialize (Hfull Hnext). lia.
  - intros url Hurl. rewrite <- Hcat in Hurl.
    apply elem_of_concat_lookup in Hurl as (i & b & Hi & Hin).
    exists i. split; [by exists b|].
    intros j b' Hj Hin'. rewrite <- Hcat in Hnd.
    by eapply (NoDup_concat_lookup batches j i b' b url).
Qed.

Lemma url_batches_partition_witness :
  let l := ["https://a.example/"; "https://b.example/"; "https://c.example/"] in
  concat (url_batches l) = l
  ∧ url_batches l = [l].
Proof.
  cbn zeta. split; [|reflexivity].
  apply (url_batches_partition
           ["https://a.example/"; "https://b.example/"; "https://c.example/"]).
  apply (bool_decide_unpack _). vm_compute. reflexivity.
Defined.

End UrlBatches.

(** ** Local files *)

Lemma join_relative dir file_path :
  Py.startswith file_path "/" = false →
  String.eqb dir "" || Py.ends_with_char posixpath.sep dir = false →
  posixpath.join dir file_path = dir +:+ "/" +:+ file_path.
Proof. intros Hrel Hdir. unfold posixpath.join. by rewrite Hrel, Hdir. Qed.

Lemma append_String c a b : String c a +:+ b = String c (a +:+ b).
Proof. reflexivity. Qed.

Lemma append_Empty b : "" +:+ b = b.
Proof. reflexivity. Qed.

Lemma has_sep_app a b :
  posixpath.has_sep (a +:+ b) = posixpath.has_sep a || posixpath.has_sep b.
Proof.
  induction a as [|c a IH]; [done|].
  rewrite append_String. cbn [posixpath.has_sep]. rewrite IH.
  by rewrite orb_assoc.
Qed.

Lemma upto_last_sep_app parent name :
  posixpath.has_sep name = false →
  posixpath.upto_last_sep (parent +:+ "/" +:+ name) = parent +:+ "/".
Proof.
  intros Hname. change ("/" +:+ name) with (String "/" name).
  induction parent as [|c parent IH].
  - rewrite !append_Empty. cbn [posixpath.upto_last_sep]. by rewrite Hname.
  - rewrite !append_String. cbn [posixpath.upto_last_sep].
    rewrite has_sep_app. cbn [posixpath.has_sep].
    change (Ascii.eqb "/" posixpath.sep) with true.
    by rewrite orb_true_r, IH.
Qed.

Lemma all_sep_app_sep parent :
  posixpath.all_sep (parent +:+ "/") = posixpath.all_sep parent.
Proof.
  induction parent as [|c parent IH]; [done|].
  rewrite append_String. cbn [posixpath.all_sep]. by rewrite IH.
Qed.

Lemma rstrip_sep_app_sep parent :
  posixpath.rstrip_sep (parent +:+ "/") = posixpath.rstrip_sep parent.
Proof.
  induction parent as [|c parent IH]; [done|].
  rewrite append_String. cbn [posixpath.rstrip_sep]. by rewrite IH.
Qed.

Lemma no_trailing_sep p :
  String.eqb p "" || Py.ends_with_char posixpath.sep p = false →
  posixpath.rstrip_sep p = p ∧ posixpath.all_sep p = false.
Proof.
  induction p as [|c p IH]; [done|].
  intros H. cbn [String.eqb orb] in H.
  destruct p as [|c' p].
  - cbn [Py.ends_with_char] in H.
    cbn [posixpath.rstrip_sep posixpath.all_sep String.eqb].
    by rewrite H.
  - cbn [Py.ends_with_char] in H. cbn [Py.ends_with_char String.eqb orb] in IH.
    destruct (IH H) as [Hr Ha].
    cbn [posixpath.rstrip_sep posixpath.all_sep] in *.
    rewrite Ha, Hr, andb_false_r.
    split; [done|by rewrite andb_false_r].
Qed.

Lemma dirname_child parent name :
  String.eqb parent "" || Py.ends_with_char posixpath.sep parent = false →
  posixpath.has_sep name = false →
  posixpath.dirname (parent +:+ "/" +:+ name) = parent.
Proof.
  intros Hparent Hname. unfold posixpath.dirname.
  destruct (no_trailing_sep parent Hparent) as [Hr Ha].
  rewrite upto_last_sep_app by done.
  rewrite all_sep_app_sep, rstrip_sep_app_sep, Ha, Hr.
  by destruct parent.
Qed.

Lemma ends_with_char_app c a b :
  String.eqb b "" = false →
  Py.ends_with_char c (a +:+ b) = Py.ends_with_char c b.
Proof.
  intros Hb. induction a as [|x a IH]; [done|].
  rewrite append_String. cbn [Py.ends_with_char]. rewrite IH.
  destruct (a +:+ b) eqn:E; [|done].
  by destruct a, b.
Qed.

Lemma no_sep_no_trailing_sep name :
  posixpath.has_sep name = false →
  Py.ends_with_char posixpath.sep name = false.
Proof.
  induction name as [|c name IH]; [done|].
  cbn [posixpath.has_sep]. intros [Hc Hn]%orb_false_elim.
  destruct name; [done|]. cbn [Py.ends_with_char]. by apply IH.
Qed.

Lemma join_child parent name file_path :
  Py.startswith file_path "/" = false →
  String.eqb name "" || posixpath.has_sep name = false →
  posixpath.join (parent +:+ "/" +:+ name) file_path
  = (parent +:+ "/" +:+ name) +:+ "/" +:+ file_path.
Proof.
  intros Hrel [Hne Hname]%orb_false_elim.
  unfold posixpath.join. rewrite Hrel.
  replace (String.eqb (parent +:+ "/" +:+ name) "") with false
    by (by destruct parent).
  rewrite ends_with_char_app by done.
  by rewrite ends_with_char_app, no_sep_no_trailing_sep.
Qed.

Lemma upto_last_sep_no_sep name :
  posixpath.has_sep name = false → posixpath.upto_last_sep name = "".
Proof.
  destruct name as [|c name]; [done|].
  cbn [posixpath.has_sep posixpath.upto_last_sep].
  by intros [-> ->]%orb_false_elim.
Qed.

(** A directory given by its bare name has the empty string as its
    [dirname], so the second place is then the working directory. *)
Lemma check_local_file_bare_directory path_exists name file_path :
  Py.startswith file_path "/" = false →
  posixpath.has_sep name = false →
  posixpath.dirname name = ""
  ∧ check_local_file path_exists file_path name =
      if path_exists (posixpath.join name file_path) then (true, "File exists")
      else if path_exists file_path then (true, "File exists")
      else (false, "File not found").
Proof.
  intros Hrel Hname.
  assert (Hdir : posixpath.dirname name = "").
  { unfold posixpath.dirname. by rewrite upto_last_sep_no_sep. }
  split; [exact Hdir|].
  unfold check_local_file. rewrite Hdir.
  replace (posixpath.join "" file_path) with file_path; [done|].
  unfold posixpath.join. by rewrite Hrel.
Qed.

Example dirname_html_dir : posixpath.dirname html_dir = "..".
Proof. reflexivity. Qed.

(** C6. Let the HTML directory be [parent/name], as [../html] in [main],
    and let the path be relative. Then [os.path.dirname] of the HTML
    directory is [parent], and [check_local_file] looks for the file under
    [parent/name/] and then under [parent/]: it answers true with
    [File exists] when the file is in the first place, or else when it is
    in the second, and false with [File not found] when it is in
    neither. *)
Theorem check_local_file_two_places path_exists parent name file_path :
  Py.startswith file_path "/" = false →
  String.eqb parent "" || Py.ends_with_char posixpath.sep parent = false →
  String.eqb name "" || posixpath.has_sep name = false →
  let dir := parent +:+ "/" +:+ name in
  let in_html_dir := path_exists (dir +:+ "/" +:+ file_path) in
  let in_project_root := path_exists (parent +:+ "/" +:+ file_path) in
  posixpath.dirname dir = parent
  ∧ posixpath.join dir file_path = dir +:+ "/" +:+ file_path
  ∧ posixpath.join (posixpath.dirname dir) file_path
    = parent +:+ "/" +:+ file_path
  ∧ check_local_file path_exists file_path dir =
      if in_html_dir then (true, "File exists")
      else if in_project_root then (true, "File exists")
      else (false, "File not found").
Proof.
  intros Hrel Hparent Hname. cbn zeta.
  assert (Hdir : posixpath.dirname (parent +:+ "/" +:+ name) = parent).
  { apply dirname_child; [done|]. by apply orb_false_elim in Hname as [_ ?]. }
  assert (Hhere : posixpath.join (parent +:+ "/" +:+ name) file_path
                  = (parent +:+ "/" +:+ name) +:+ "/" +:+ file_path).
  { by apply join_child. }
  assert (Habove : posixpath.join
                     (posixpath.dirname (parent +:+ "/" +:+ name)) file_path
                   = parent +:+ "/" +:+ file_path).
  { rewrite Hdir. by apply join_relative. }
  split; [exact Hdir|]. split; [exact Hhere|]. split; [exact Habove|].
  unfold check_local_file. by rewrite Hhere, Habove.
Qed.

Lemma check_local_file_two_places_witness :
  posixpath.dirname html_dir = ".."
  ∧ check_local_file only_in_project_root "images/fig1.png" html_dir
    = (true, "File exists")
  ∧ check_local_file only_in_project_root "images/fig2.png" html_dir
    = (false, "File not found").
Proof.
  split; [|split].
  - destruct (check_local_file_two_places only_in_project_root
                ".." "html" "images/fig1.png" eq_refl eq_refl eq_refl)
      as (H & _). exact H.
  - destruct (check_local_file_two_places only_in_project_root
                ".." "html" "images/fig1.png" eq_refl eq_refl eq_refl)
      as (_ & _ & _ & H). exact H.
  - destruct (check_local_file_two_places only_in_project_root
                ".." "html" "images/fig2.png" eq_refl eq_refl eq_refl)
      as (_ & _ & _ & H). exact H.
Defined.

(** ** Link extraction *)

Lemma find_all_cons t soup name key :
  find_all (t :: soup) name key =
  option_list (if String.eqb (tag_name t) name
               then assoc key (tag_attrs t) else None)
  ++ find_all soup name key.
Proof.
  unfold find_all. cbn [omap list_omap].
  by destruct (if String.eqb (tag_name t) name then _ else _).
Qed.

Lemma omap_cons_option_list {A B} (f : A → option B) (x : A) (l : list A) :
  omap f (x :: l) = option_list (f x) ++ omap f l.
Proof. cbn [omap list_omap]. by destruct (f x). Qed.

Lemma find_all_a soup :
  find_all soup "a" "href" ≫= links_of_a = omap link_tuple soup.
Proof.
  induction soup as [|t soup IH]; [done|].
  rewrite find_all_cons, bind_app, IH, omap_cons_option_list. f_equal.
  unfold link_tuple, links_of_a.
  destruct (String.eqb (tag_name t) "a"); [|done].
  destruct (assoc "href" (tag_attrs t)) as [href|]; [|done].
  cbn. rewrite app_nil_r. by destruct (Py.startswith href "http").
Qed.

Lemma find_all_img soup :
  find_all soup "img" "src" ≫= links_of_img = omap image_tuple soup.
Proof.
  induction soup as [|t soup IH]; [done|].
  rewrite find_all_cons, bind_app, IH, omap_cons_option_list. f_equal.
  unfold image_tuple, links_of_img.
  destruct (String.eqb (tag_name t) "img"); [|done].
  destruct (assoc "src" (tag_attrs t)) as [src|]; [|done].
  cbn. rewrite app_nil_r. destruct (Py.startswith src "http"); [done|].
  by destruct (Py.startswith src "#"), (Py.startswith src "data:").
Qed.

Lemma find_all_link soup :
  find_all soup "link" "href" ≫= links_of_link = omap resource_tuple soup.
Proof.
  induction soup as [|t soup IH]; [done|].
  rewrite find_all_cons, bind_app, IH, omap_cons_option_list. f_equal.
  unfold resource_tuple, links_of_link.
  destruct (String.eqb (tag_name t) "link"); [|done].
  destruct (assoc "href" (tag_attrs t)) as [href|]; [|done].
  cbn. rewrite app_nil_r. by destruct (Py.startswith href "http").
Qed.

Lemma tuples_of_one_tag t :
  (length (option_list (link_tuple t)) + length (option_list (image_tuple t))
   + length (option_list (resource_tuple t))
   ≤ if is_ref_tag t then 1 else 0)%nat.
Proof.
  unfold link_tuple, image_tuple, resource_tuple, is_ref_tag.
  destruct (String.eqb_spec (tag_name t) "a") as [Ha|_].
  { rewrite Ha. cbn [String.eqb Ascii.eqb Bool.eqb orb option_list option_rect length].
    destruct (match assoc "href" (tag_attrs t) with
              | Some href => _ | None => _ end); cbn; lia. }
  destruct (String.eqb_spec (tag_name t) "img") as [Hi|_].
  { rewrite Hi. cbn [String.eqb Ascii.eqb Bool.eqb orb option_list option_rect length].
    destruct (match assoc "src" (tag_attrs t) with
              | Some src => _ | None => _ end); cbn; lia. }
  destruct (String.eqb (tag_name t) "link"); [|cbn; lia].
  destruct (match assoc "href" (tag_attrs t) with
            | Some href => _ | None => _ end); cbn; lia.
Qed.

(** C2, as amended. The list returned for a parsed document is, in this
    order: a [link] tuple for each anchor whose [href] starts with [http],
    then an [image] or [local_image] tuple for each image (image when the
    [src] starts with [http]; local image otherwise, unless the [src]
    starts with [#] or [data:]), then a [resource] tuple for each link tag
    whose [href] starts with [http]; each group in document order.  Tags
    without [href] or [src] or with another target are skipped, so the
    list has at most as many tuples as the document has anchor, image and
    link tags; a file that cannot be read or parsed gives the empty
    list. *)
Theorem extract_links_lists_qualifying_tags soup :
  extract_links_from_html (Some soup) =
    omap link_tuple soup ++ omap image_tuple soup ++ omap resource_tuple soup
  ∧ (length (extract_links_from_html (Some soup)) ≤ count_ref_tags soup)%nat
  ∧ extract_links_from_html None = [].
Proof.
  assert (Heq : extract_links_from_html (Some soup) =
    omap link_tuple soup ++ omap image_tuple soup ++ omap resource_tuple soup).
  { unfold extract_links_from_html.
    by rewrite find_all_a, find_all_img, find_all_link. }
  split; [exact Heq|]. split; [|done].
  rewrite Heq, !length_app. unfold count_ref_tags. clear Heq.
  induction soup as [|t soup IH]; [done|].
  rewrite !omap_cons_option_list, !length_app, filter_cons.
  pose proof (tuples_of_one_tag t) as Ht.
  destruct (decide (is_ref_tag t = true)) as [Hr|Hr].
  - rewrite Hr in Ht. cbn [length]. lia.
  - apply not_true_is_false in Hr. rewrite Hr in Ht. lia.
Qed.

(** C2, as stated, fails: a document with four anchor, image and link
    tags, none of which qualifies, gives no tuple. *)
Lemma extract_links_skips_tags :
  let soup := [Tag "a" [("name", "top")];
               Tag "a" [("href", "mailto:editor@example.org")];
               Tag "img" [("src", "data:image/png;base64,AAAA")];
               Tag "link" [("rel", "stylesheet"); ("href", "style.css")]] in
  count_ref_tags soup = 4%nat
  ∧ extract_links_from_html (Some soup) = []
  ∧ length (extract_links_from_html (Some soup)) ≠ count_ref_tags soup.
Proof. cbn zeta. split; [reflexivity|]. split; [reflexivity|]. vm_compute. lia. Qed.

(** * Further properties of the checker *)

(** ** Domain delays *)

Lemma prefix_app_self needle back :
  String.prefix needle (needle +:+ back) = true.
Proof.
  induction needle as [|a needle IH]; [by destruct back|].
  change (String a needle +:+ back) with (String a (needle +:+ back)).
  cbn [String.prefix]. by destruct (ascii_dec a a).
Qed.

Lemma contains_prefix needle hay :
  String.prefix needle hay = true → Py.contains needle hay = true.
Proof. intros H. destruct hay; cbn [Py.contains]; by rewrite H. Qed.

Lemma contains_infix needle front back :
  Py.contains needle (front +:+ needle +:+ back) = true.
Proof. apply contains_app_r, contains_prefix, prefix_app_self. Qed.

(** The two academic names win over everything else: a domain with
    [doi.org] or [jstor.org] anywhere in it (a subdomain before, a port or
    anything else after) gets the 2 s delay, also when it contains
    [oed.com] or [britishmuseum.org] as well. *)
Theorem academic_domains_wait_two_seconds front back :
  get_domain_delay (front +:+ "doi.org" +:+ back) = 2000
  ∧ get_domain_delay (front +:+ "jstor.org" +:+ back) = 2000.
Proof.
  unfold get_domain_delay. split.
  - by rewrite (contains_infix "doi.org").
  - by rewrite (contains_infix "jstor.org"), orb_true_r.
Qed.

(** ** What one check does to the world *)

Section CheckerMore.

Variable netloc : string → string.
Variable remote : string → server.

(** [time.sleep] is called at most once per check and never with a
    negative or zero duration; when the clock is not behind the recorded
    timestamp the check sleeps no longer than the domain's delay. *)
Theorem sleeps_are_positive_and_bounded url w :
  ∃ evs, trace (check_url_with_rate_limit netloc remote url w).2 = trace w ++ evs
         ∧ (length (filter (λ e, is_sleep e = true) evs) ≤ 1)%nat
         ∧ ∀ ms, Sleep ms ∈ evs →
             0 < ms
             ∧ (default 0 (domain_last_request w !! netloc url) ≤ clock w →
                ms ≤ get_domain_delay (netloc url)).
Proof.
  rewrite check_url_with_rate_limit_run. cbn [snd trace].
  eexists. split; [reflexivity|].
  unfold check_events, wait_of.
  destruct (_ <? _) eqn:Hlt; cbn [fmap option_fmap option_map option_list app].
  - apply Z.ltb_lt in Hlt. split.
    + destruct (head_failed (remote url)), (head_rejected (remote url)); vm_compute; lia.
    + intros ms Hin.
      assert (ms = get_domain_delay (netloc url)
                   - (clock w - default 0 (domain_last_request w !! netloc url)))
        as ->.
      { destruct (head_failed (remote url)), (head_rejected (remote url));
          repeat (apply elem_of_cons in Hin as [Hin|Hin]; [congruence|]);
          by apply elem_of_nil in Hin. }
      lia.
  - split.
    + destruct (head_failed (remote url)), (head_rejected (remote url)); vm_compute; lia.
    + intros ms Hin. exfalso.
      destruct (head_failed (remote url)), (head_rejected (remote url));
        repeat (apply elem_of_cons in Hin as [Hin|Hin]; [congruence|]);
        by apply elem_of_nil in Hin.
Qed.

Lemma check_request_counts url w :
  let w' := (check_url_with_rate_limit netloc remote url w).2 in
  heads_sent (trace w') = S (heads_sent (trace w))
  ∧ gets_sent (trace w') =
      (gets_sent (trace w)
       + if head_failed (remote url) || head_rejected (remote url) then 1 else 0)%nat.
Proof.
  cbn zeta. rewrite check_url_with_rate_limit_run. cbn [snd trace].
  unfold heads_sent, gets_sent. rewrite !filter_length_app.
  fold (heads_sent (check_events (netloc url) url (remote url) w)).
  fold (gets_sent (check_events (netloc url) url (remote url) w)).
  rewrite heads_sent_check, gets_sent_check. split; lia.
Qed.

(** A check returns no status exactly when both its HEAD and its GET
    raised a transport error. *)
Theorem no_status_iff_both_requests_fail url w :
  (∃ reason, (check_url_with_rate_limit netloc remote url w).1 = Ok (None, reason))
  ↔ (∃ e1, outcome (on_head (remote url)) = Failure e1)
    ∧ (∃ e2, outcome (on_get (remote url)) = Failure e2).
Proof.
  rewrite check_url_with_rate_limit_result. unfold verdict.
  destruct (outcome (on_head (remote url))) as [sc r1|e1],
           (outcome (on_get (remote url))) as [sc2 r2|e2].
  - split; [|by intros [[? ?] _]]. intros [reason H].
    destruct ((sc =? 405) || (sc =? 406)), (sc2 =? 200); simplify_eq.
  - split; [|by intros [[? ?] _]]. intros [reason H].
    destruct ((sc =? 405) || (sc =? 406)); simplify_eq.
  - split; [|by intros [_ [? ?]]]. intros [reason H]. simplify_eq.
  - split; [by eauto|]. intros _. by eexists.
Qed.

(** The status a check returns is that of the GET when a GET was sent and
    answered; otherwise that of the HEAD when it was answered. *)
Theorem returned_status_is_last_answer url w status reason :
  (check_url_with_rate_limit netloc remote url w).1 = Ok (status, reason) →
  status =
    match outcome (on_head (remote url)), outcome (on_get (remote url)) with
    | Response sc _, Response sc2 _ =>
        if head_rejected (remote url) then Some sc2 else Some sc
    | Response sc _, Failure _ => Some sc
    | Failure _, Response sc2 _ => Some sc2
    | Failure _, Failure _ => None
    end.
Proof.
  rewrite check_url_with_rate_limit_result. unfold verdict, head_rejected.
  destruct (outcome (on_head (remote url))) as [sc r1|e1],
           (outcome (on_get (remote url))) as [sc2 r2|e2]; intros H.
  - destruct ((sc =? 405) || (sc =? 406)), (sc2 =? 200); by simplify_eq.
  - destruct ((sc =? 405) || (sc =? 406)); by simplify_eq.
  - by simplify_eq.
  - by simplify_eq.
Qed.

(** A check leaves the timestamps of all other domains as they were, only
    appends to the trace, and, when no request takes negative time, does
    not set the clock back. *)
Theorem check_touches_only_its_domain url w domain :
  domain ≠ netloc url →
  0 ≤ elapsed (on_head (remote url)) →
  0 ≤ elapsed (on_get (remote url)) →
  let w' := (check_url_with_rate_limit netloc remote url w).2 in
  domain_last_request w' !! domain = domain_last_request w !! domain
  ∧ clock w ≤ clock w'
  ∧ ∃ evs, trace w' = trace w ++ evs.
Proof.
  intros Hne Hh Hg. cbn zeta. rewrite check_url_with_rate_limit_run.
  cbn [snd clock domain_last_request trace].
  split; [by rewrite lookup_insert_ne|]. split; [|by eexists].
  pose proof (head_sent_respects_delay domain w) as _.
  unfold check_end, head_sent, wait_of.
  destruct (_ <? _) eqn:Hlt; cbn [default from_option id].
  - apply Z.ltb_lt in Hlt. destruct (_ || _); lia.
  - destruct (_ || _); lia.
Qed.

(** Two checks of one domain, one right after the other: the HEAD of the
    second is sent no sooner than the domain's delay after the timestamp
    the first one recorded. *)
Theorem second_check_waits url1 url2 w :
  netloc url1 = netloc url2 →
  let w1 := (check_url_with_rate_limit netloc remote url1 w).2 in
  let w2 := (check_url_with_rate_limit netloc remote url2 w1).2 in
  ∃ stamp sent pre post,
    domain_last_request w1 !! netloc url1 = Some stamp
    ∧ trace w2 = trace w1 ++ pre ++ Head url2 sent :: post
    ∧ stamp + get_domain_delay (netloc url2) ≤ sent.
Proof.
  intros Hdom. cbn zeta.
  rewrite (check_url_with_rate_limit_run netloc remote url2).
  cbn [snd trace]. unfold check_events.
  eexists _, (head_sent (netloc url2) (check_url_with_rate_limit netloc remote url1 w).2),
    ([Acquire (netloc url2)]
       ++ option_list (Sleep <$> wait_of (netloc url2) (check_url_with_rate_limit netloc remote url1 w).2)), _.
  split; [|split].
  - rewrite check_url_with_rate_limit_run. cbn [snd domain_last_request].
    apply lookup_insert_eq.
  - rewrite <- !app_assoc. reflexivity.
  - etrans; [|apply head_sent_respects_delay].
    rewrite check_url_with_rate_limit_run. cbn [snd domain_last_request].
    rewrite <- Hdom, lookup_insert_eq. done.
Qed.

End CheckerMore.

(** ** Checks and batches with the parsing of the URL *)

(** A check of a URL that [urlparse] accepts sends exactly one HEAD; it
    sends one GET when the HEAD raised or was answered 405 or 406, and
    none otherwise.  A check of a URL that [urlparse] rejects raises and
    sends nothing. *)
Theorem requests_sent_by_a_check urlparse_netloc remote url w :
  match urlparse_netloc url with
  | Ok _ =>
      let w' := (check_url_with_rate_limit_parsing urlparse_netloc remote
                   url w).2 in
      heads_sent (trace w') = S (heads_sent (trace w))
      ∧ gets_sent (trace w') =
          (gets_sent (trace w)
           + if head_failed (remote url) || head_rejected (remote url)
             then 1 else 0)%nat
  | Raise e =>
      check_url_with_rate_limit_parsing urlparse_netloc remote url w
      = (Raise e, w)
  end.
Proof.
  destruct (urlparse_netloc url) as [domain|e] eqn:Hp.
  - apply check_parsing_counts. unfold accepted. by rewrite Hp.
  - by apply check_parsing_rejected.
Qed.



(** * Further properties of [main] *)

(** ** From the unique URLs to [url_status] *)

Lemma lookup_foldl_insert {V} (f : string → V) (l : list string)
    (acc : gmap string V) k :
  foldl (λ m key, <[key := f key]> m) acc l !! k =
  if decide (k ∈ l) then Some (f k) else acc !! k.
Proof.
  revert acc. induction l as [|a l IH]; intros acc; cbn [foldl].
  - rewrite decide_False; [done|]. apply not_elem_of_nil.
  - rewrite IH. destruct (decide (k ∈ l)) as [Hin|Hnin].
    + rewrite decide_True; [done|]. by apply list_elem_of_further.
    + destruct (decide (k = a)) as [->|Hne].
      * rewrite lookup_insert_eq, decide_True; [done|]. apply list_elem_of_here.
      * rewrite lookup_insert_ne by done. rewrite decide_False; [done|].
        by intros [?|?]%elem_of_cons.
Qed.

Lemma url_batches_concat (urls : list string) : concat (url_batches urls) = urls.
Proof.
  rewrite url_batches_chunks, concat_chunks. cbn [Nat.mul drop].
  apply take_ge. apply ceil_div_bounds.
Qed.

Lemma elem_of_dom_merge_batches {V} (l : list (gmap string V)) k :
  k ∈ dom (merge_batches l) ↔ ∃ r, r ∈ l ∧ is_Some (r !! k).
Proof.
  rewrite dom_merge_batches, elem_of_union_list. split.
  - intros (X & (r & -> & Hr)%list_elem_of_fmap & Hk).
    exists r. split; [done|]. by apply elem_of_dom.
  - intros (r & Hr & Hk). exists (dom r). split.
    + apply list_elem_of_fmap. by exists r.
    + by apply elem_of_dom.
Qed.

Section Pipeline.

Variable netloc : string → string.
Variable remote : string → server.

Lemma check_url_batch_lookup urls w r k :
  (check_url_batch netloc remote urls w).1 = Ok r →
  r !! k = if decide (k ∈ urls) then Some (verdict (remote k)) else None.
Proof.
  unfold check_url_batch.
  destruct (check_url_batch_from_run netloc remote urls ∅ w) as [w' ->].
  cbn [fst]. intros [= <-].
  by rewrite (lookup_foldl_insert (λ url, verdict (remote url))), lookup_empty.
Qed.

Lemma merged_status_lookup unique_urls_list rs completed :
  Forall2 (λ batch r, ∃ w, (check_url_batch netloc remote batch w).1 = Ok r)
          (url_batches unique_urls_list) rs →
  completed ≡ₚ rs →
  dom (merge_batches completed) = list_to_set unique_urls_list
  ∧ ∀ url, url ∈ unique_urls_list →
      ∃ r, merge_batches completed !! url = Some r
           ∧ ∀ w, (check_url_with_rate_limit netloc remote url w).1 = Ok r.
Proof.
  intros Hrs Hperm.
  assert (Hfrom : ∀ r k v, r ∈ completed → r !! k = Some v →
                  k ∈ unique_urls_list ∧ v = verdict (remote k)).
  { intros r k v Hr Hk. rewrite Hperm in Hr.
    apply list_elem_of_lookup in Hr as [i Hi].
    destruct (Forall2_lookup_r _ _ _ _ _ Hrs Hi) as (b & Hb & w & Hrun).
    rewrite (check_url_batch_lookup _ _ _ k Hrun) in Hk.
    destruct (decide (k ∈ b)) as [Hin|]; [|done]. split; [|congruence].
    rewrite <- (url_batches_concat unique_urls_list).
    apply elem_of_concat_lookup. eauto. }
  assert (Hto : ∀ k, k ∈ unique_urls_list →
                ∃ r, r ∈ completed ∧ r !! k = Some (verdict (remote k))).
  { intros k Hk. rewrite <- (url_batches_concat unique_urls_list) in Hk.
    apply elem_of_concat_lookup in Hk as (i & b & Hb & Hin).
    destruct (Forall2_lookup_l _ _ _ _ _ Hrs Hb) as (r & Hr & w & Hrun).
    exists r. split.
    - rewrite Hperm. by eapply list_elem_of_lookup_2.
    - rewrite (check_url_batch_lookup _ _ _ k Hrun). by rewrite decide_True. }
  split.
  - apply set_eq. intros k.
    rewrite elem_of_dom_merge_batches, elem_of_list_to_set. split.
    + intros (r & Hr & [v Hv]). by destruct (Hfrom r k v Hr Hv).
    + intros Hk. destruct (Hto k Hk) as (r & Hr & Hv). exists r. eauto.
  - intros url Hurl. exists (verdict (remote url)). split.
    + destruct (Hto url Hurl) as (r & Hr & Hv).
      assert (Hin : url ∈ dom (merge_batches completed)).
      { apply elem_of_dom_merge_batches. exists r. eauto. }
      apply elem_of_dom in Hin as [v Hv'].
      destruct (lookup_merge_batches _ _ _ Hv') as (r' & Hr' & Hv'').
      destruct (Hfrom r' url v Hr' Hv'') as [_ ->]. exact Hv'.
    + intros w. apply check_url_with_rate_limit_result.
Qed.

(** Phase 4 as a whole. The unique URLs are cut into batches, every batch
    is checked (from whatever state the process is in at that moment), and
    the results are merged in the order in which the batches finish: the
    keys of [url_status] are the unique URLs, and each URL is mapped to
    the pair a check of it returns. *)
Theorem every_unique_url_gets_its_status unique_urls_list rs completed :
  Forall2 (λ batch r, ∃ w, (check_url_batch netloc remote batch w).1 = Ok r)
          (url_batches unique_urls_list) rs →
  completed ≡ₚ rs →
  dom (merge_batches completed) = list_to_set unique_urls_list
  ∧ ∀ url, url ∈ unique_urls_list →
      ∃ r, merge_batches completed !! url = Some r
           ∧ ∀ w, (check_url_with_rate_limit netloc remote url w).1 = Ok r.
Proof. exact (merged_status_lookup unique_urls_list rs completed). Qed.

End Pipeline.

(** ** The report *)

(** A link has a recorded status: a local image in [local_file_status],
    anything else in [url_status]. *)
Lemma file_issues_is_Some lfs us links :
  is_Some (file_issues lfs us links)
  ↔ Forall (λ link : string * string,
              if String.eqb link.1 "local_image"
              then is_Some (lfs !! link.2) else is_Some (us !! link.2)) links.
Proof.
  induction links as [|[link_type url] links IH].
  - split; [constructor|by eexists].
  - rewrite Forall_cons, <- IH. cbn [file_issues fst snd].
    destruct (String.eqb link_type "local_image").
    + destruct (lfs !! url) as [r|]; cbn.
      * destruct (file_issues lfs us links); cbn; split;
          [by (split; eauto)|by eauto|by intros [? ?]|by intros [_ [? ?]]].
      * split; [by intros [? ?]|by intros [[? ?] _]].
    + destruct (us !! url) as [r|]; cbn.
      * destruct (file_issues lfs us links); cbn; split;
          [by (split; eauto)|by eauto|by intros [? ?]|by intros [_ [? ?]]].
      * split; [by intros [? ?]|by intros [[? ?] _]].
Qed.

(** Building the report stops with a [KeyError] exactly when some link of
    the file has no recorded status: a local image missing from
    [local_file_status] or another target missing from [url_status]. *)
Theorem file_issues_fails_iff_status_missing lfs us links :
  file_issues lfs us links = None
  ↔ Exists (λ link : string * string,
              if String.eqb link.1 "local_image"
              then lfs !! link.2 = None else us !! link.2 = None) links.
Proof.
  induction links as [|[link_type url] links IH].
  - split; [done|by intros ?%Exists_nil].
  - rewrite Exists_cons, <- IH. cbn [file_issues fst snd].
    destruct (String.eqb link_type "local_image").
    + destruct (lfs !! url) as [r|]; cbn; [|by split; eauto].
      destruct (file_issues lfs us links); cbn; split; try done;
        [by intros [?|?]|by right].
    + destruct (us !! url) as [r|]; cbn; [|by split; eauto].
      destruct (file_issues lfs us links); cbn; split; try done;
        [by intros [?|?]|by right].
Qed.

Lemma count_issues_nil t : count_issues t [] = t.
Proof.
  destruct t as [bc bw db]. unfold count_issues. cbn. f_equal; lia.
Qed.

Lemma count_issues_cons t link_type url st reason category more :
  known_category category →
  count_issues t (Issue link_type url st reason category :: more) =
  count_issues
    (Tally (S (broken_count t))
           (if decide (category = "broken") then browser_working_count t
            else S (browser_working_count t))
           (if decide (category = "broken") then S (definitely_broken_count t)
            else definitely_broken_count t))
    more.
Proof.
  intros Hcat. unfold count_issues, in_category.
  rewrite !filter_cons. cbn [issue_category broken_count browser_working_count
    definitely_broken_count].
  destruct Hcat as [-> | [-> | ->]];
    repeat case_decide; try congruence; cbn [length]; f_equal; lia.
Qed.

Lemma scan_links_eq lfs us links acc t :
  scan_links lfs us (acc, t) links =
  (λ more, (acc ++ more, count_issues t more)) <$> file_issues lfs us links.
Proof.
  revert acc t. induction links as [|[link_type url] links IH]; intros acc t.
  - cbn. by rewrite app_nil_r, count_issues_nil.
  - cbn [scan_links file_issues]. unfold scan_link, mbind, option_bind.
    destruct (String.eqb link_type "local_image").
    + destruct (lfs !! url) as [[found reason]|]; cbn [fmap option_fmap option_map];
        [|done].
      destruct found; cbn [local_issue]; rewrite IH;
        destruct (file_issues lfs us links) as [more|]; cbn; try done.
      rewrite <- app_assoc. cbn [app].
      by rewrite (count_issues_cons t) by (by left).
    + destruct (us !! url) as [[status_code reason]|];
        cbn [fmap option_fmap option_map]; [|done].
      unfold remote_issue, categorize.
      destruct (is_failing status_code); [|rewrite IH;
        by destruct (file_issues lfs us links)].
      destruct (Py.contains works_marker reason);
        [|destruct (Py.contains maybe_marker reason)];
        rewrite IH; destruct (file_issues lfs us links) as [more|]; cbn; try done;
        rewrite <- app_assoc; cbn [app].
      * by rewrite (count_issues_cons t) by (right; by left).
      * by rewrite (count_issues_cons t) by (right; by right).
      * by rewrite (count_issues_cons t) by (by left).
Qed.

(** The loop of the report over the links of one file, with its three
    counters: the issues it collects are those of [file_issues], and the
    counters grow by the number of issues, of browser_ok and maybe_ok
    issues, and of broken issues. *)
Theorem scan_links_counts_by_category lfs us links acc t :
  scan_links lfs us (acc, t) links =
  (λ more, (acc ++ more, count_issues t more)) <$> file_issues lfs us links.
Proof. exact (scan_links_eq lfs us links acc t). Qed.

Lemma categorize_known reason : known_category (categorize reason).
Proof.
  unfold categorize, known_category.
  destruct (Py.contains works_marker reason); [by right; left|].
  destruct (Py.contains maybe_marker reason); [by right; right|by left].
Qed.

Lemma file_issues_categories lfs us links issues :
  file_issues lfs us links = Some issues →
  Forall (λ item, known_category (issue_category item)) issues.
Proof.
  revert issues. induction links as [|[link_type url] links IH]; intros issues.
  - intros [= <-]. constructor.
  - cbn [file_issues]. intros H. apply bind_Some in H as (entry & Hentry & H).
    apply bind_Some in H as (more & Hmore & [= <-]).
    apply Forall_app. split; [|by apply IH].
    destruct entry as [item|]; [|constructor]. apply Forall_singleton.
    destruct (String.eqb link_type "local_image").
    + apply fmap_Some in Hentry as ([found reason] & _ & Hitem).
      cbn in Hitem. destruct found; simplify_eq. by left.
    + apply fmap_Some in Hentry as ([status_code reason] & _ & Hitem).
      cbn in Hitem. destruct (is_failing status_code); simplify_eq.
      apply categorize_known.
Qed.

Lemma known_categories_partition issues :
  Forall (λ item, known_category (issue_category item)) issues →
  issues ≡ₚ in_category "broken" issues ++ in_category "browser_ok" issues
            ++ in_category "maybe_ok" issues.
Proof.
  unfold in_category. induction 1 as [|item issues Hcat _ IH]; [done|].
  rewrite !filter_cons.
  destruct Hcat as [-> | [-> | ->]]; repeat case_decide; try congruence.
  - cbn [app]. by constructor.
  - cbn [app]. rewrite <- Permutation_middle. by constructor.
  - rewrite app_assoc, <- Permutation_middle, <- app_assoc. by constructor.
Qed.

(** The three sections of a file's report (definitely broken, works in
    browser, may work in browser) together list every issue of the file
    exactly once: no issue has a category outside the three. *)
Theorem report_sections_partition_the_issues lfs us links issues :
  file_issues lfs us links = Some issues →
  issues ≡ₚ in_category "broken" issues ++ in_category "browser_ok" issues
            ++ in_category "maybe_ok" issues.
Proof. intros H. eapply known_categories_partition, file_issues_categories, H. Qed.

Lemma count_issues_app t issues more :
  count_issues (count_issues t issues) more = count_issues t (issues ++ more).
Proof.
  unfold count_issues, in_category.
  cbn [broken_count browser_working_count definitely_broken_count].
  rewrite !filter_app, !length_app. f_equal; lia.
Qed.

Lemma scan_files_spec lfs us all_links listed t listed' t' :
  scan_files lfs us (listed, t) all_links = Some (listed', t') →
  ∃ new, listed' = listed ++ new
         ∧ t' = count_issues t (concat new.*2)
         ∧ Forall (λ f, f.2 ≠ []) new
         ∧ Forall (λ f, ∃ links, (f.1, links) ∈ all_links
                                 ∧ file_issues lfs us links = Some f.2) new
         ∧ new.*1 `sublist_of` all_links.*1.
Proof.
  revert listed t. induction all_links as [|[html_file links] all_links IH];
    intros listed t.
  - intros [= <- <-]. exists []. rewrite app_nil_r, count_issues_nil.
    repeat split; constructor.
  - cbn [scan_files fst snd]. rewrite scan_links_eq.
    destruct (file_issues lfs us links) as [issues|] eqn:Hissues; [|done].
    cbn [fmap option_fmap option_map app]. intros Hrest.
    apply IH in Hrest as (new & -> & -> & Hne & Hfrom & Hsub).
    assert (Hfrom' : Forall (λ f, ∃ links0, (f.1, links0) ∈ (html_file, links) :: all_links
                                  ∧ file_issues lfs us links0 = Some f.2) new).
    { eapply Forall_impl; [exact Hfrom|]. intros f (links0 & Hin & Hf).
      exists links0. split; [by apply list_elem_of_further|done]. }
    destruct issues as [|item issues].
    + exists new. rewrite count_issues_nil.
      repeat split; try done. cbn [fmap list_fmap]. by apply sublist_cons.
    + exists ((html_file, item :: issues) :: new).
      rewrite <- app_assoc, count_issues_app. cbn [fmap list_fmap concat snd app].
      repeat split; try done.
      * by constructor.
      * constructor; [|done]. exists links. split; [apply list_elem_of_here|done].
      * by apply sublist_skip.
Qed.

(** The counters of the final report. Every issue is counted once in
    [broken_count] and once in exactly one of the two other counters, so
    the total is the sum of the two; the counters are the numbers of
    issues listed, by category; only files that have issues are listed, in
    the order of [all_links]. *)
Theorem report_counters_add_up lfs us all_links listed t :
  scan_files lfs us ([], Tally 0 0 0) all_links = Some (listed, t) →
  let issues := concat listed.*2 in
  broken_count t = (browser_working_count t + definitely_broken_count t)%nat
  ∧ broken_count t = length issues
  ∧ definitely_broken_count t = length (in_category "broken" issues)
  ∧ browser_working_count t =
      (length (in_category "browser_ok" issues)
       + length (in_category "maybe_ok" issues))%nat
  ∧ Forall (λ f, f.2 ≠ []) listed
  ∧ listed.*1 `sublist_of` all_links.*1.
Proof.
  intros Hscan. apply scan_files_spec in Hscan
    as (new & -> & -> & Hne & Hfrom & Hsub). cbn [app]. cbn zeta.
  assert (Hcat : Forall (λ item, known_category (issue_category item))
                        (concat new.*2)).
  { clear -Hfrom. induction Hfrom as [|f new (links & _ & Hf) _ IH];
      [constructor|]. cbn [fmap list_fmap concat]. apply Forall_app.
    split; [|done]. by eapply file_issues_categories. }
  apply known_categories_partition, Permutation_length in Hcat.
  rewrite !length_app in Hcat.
  unfold count_issues. cbn [broken_count browser_working_count
    definitely_broken_count]. repeat split; try done; lia.
Qed.

(** ** Extraction and the unique targets *)

Lemma elem_of_links_of_a href kind target :
  (kind, target) ∈ links_of_a href →
  kind = "link" ∧ target = href ∧ Py.startswith target "http" = true.
Proof.
  unfold links_of_a. destruct (Py.startswith href "http") eqn:H.
  - intros [=]%list_elem_of_singleton. by subst.
  - by intros ?%elem_of_nil.
Qed.

Lemma elem_of_links_of_link href kind target :
  (kind, target) ∈ links_of_link href →
  kind = "resource" ∧ target = href ∧ Py.startswith target "http" = true.
Proof.
  unfold links_of_link. destruct (Py.startswith href "http") eqn:H.
  - intros [=]%list_elem_of_singleton. by subst.
  - by intros ?%elem_of_nil.
Qed.

Lemma elem_of_links_of_img src kind target :
  (kind, target) ∈ links_of_img src →
  target = src
  ∧ (kind = "image" ∧ Py.startswith target "http" = true
     ∨ kind = "local_image" ∧ Py.startswith target "http" = false
       ∧ Py.startswith target "#" = false
       ∧ Py.startswith target "data:" = false).
Proof.
  unfold links_of_img. destruct (Py.startswith src "http") eqn:Hh.
  - intros [=]%list_elem_of_singleton. subst. split; [done|by left].
  - destruct (Py.startswith src "#") eqn:Hf; cbn [negb andb];
      [by intros ?%elem_of_nil|].
    destruct (Py.startswith src "data:") eqn:Hd; cbn [negb];
      [by intros ?%elem_of_nil|].
    intros [=]%list_elem_of_singleton. subst. split; [done|by right].
Qed.

Lemma elem_of_find_all soup name key value :
  value ∈ find_all soup name key
  ↔ ∃ t, t ∈ soup ∧ tag_name t = name ∧ assoc key (tag_attrs t) = Some value.
Proof.
  unfold find_all. rewrite list_elem_of_omap. split.
  - intros (t & Ht & H). exists t. split; [done|].
    destruct (String.eqb_spec (tag_name t) name); [done|discriminate].
  - intros (t & Ht & Hn & Ha). exists t. split; [done|].
    by rewrite <- Hn, String.eqb_refl.
Qed.

Lemma elem_of_extract_links parsed kind target :
  (kind, target) ∈ extract_links_from_html parsed →
  ∃ soup t, parsed = Some soup ∧ t ∈ soup
    ∧ (kind = "link" ∧ tag_name t = "a"
         ∧ assoc "href" (tag_attrs t) = Some target
         ∧ Py.startswith target "http" = true
       ∨ kind = "image" ∧ tag_name t = "img"
         ∧ assoc "src" (tag_attrs t) = Some target
         ∧ Py.startswith target "http" = true
       ∨ kind = "local_image" ∧ tag_name t = "img"
         ∧ assoc "src" (tag_attrs t) = Some target
         ∧ Py.startswith target "http" = false
         ∧ Py.startswith target "#" = false
         ∧ Py.startswith target "data:" = false
       ∨ kind = "resource" ∧ tag_name t = "link"
         ∧ assoc "href" (tag_attrs t) = Some target
         ∧ Py.startswith target "http" = true).
Proof.
  destruct parsed as [soup|]; [|by intros ?%elem_of_nil].
  unfold extract_links_from_html. rewrite !elem_of_app, !list_elem_of_bind.
  intros [(href & Hl & Hf) | [(src & Hl & Hf) | (href & Hl & Hf)]];
    apply elem_of_find_all in Hf as (t & Ht & Hn & Ha); exists soup, t;
    (split; [done|]); (split; [done|]).
  - apply elem_of_links_of_a in Hl as (-> & -> & Hh). by left.
  - apply elem_of_links_of_img in Hl as (-> & [[-> Hh] | (-> & Hh & Hf & Hd)]).
    + right. by left.
    + right. right. by left.
  - apply elem_of_links_of_link in Hl as (-> & -> & Hh). by do 3 right.
Qed.

(** Every tuple the extractor returns has one of the four kinds and a
    target taken from a tag of the matching name: links, images and
    resources start with [http]; a local image starts neither with [http]
    nor with [#] nor with [data:]. *)
Theorem extracted_links_are_well_typed parsed kind target :
  (kind, target) ∈ extract_links_from_html parsed →
  ∃ soup t, parsed = Some soup ∧ t ∈ soup
    ∧ (kind = "link" ∧ tag_name t = "a"
         ∧ assoc "href" (tag_attrs t) = Some target
         ∧ Py.startswith target "http" = true
       ∨ kind = "image" ∧ tag_name t = "img"
         ∧ assoc "src" (tag_attrs t) = Some target
         ∧ Py.startswith target "http" = true
       ∨ kind = "local_image" ∧ tag_name t = "img"
         ∧ assoc "src" (tag_attrs t) = Some target
         ∧ Py.startswith target "http" = false
         ∧ Py.startswith target "#" = false
         ∧ Py.startswith target "data:" = false
       ∨ kind = "resource" ∧ tag_name t = "link"
         ∧ assoc "href" (tag_attrs t) = Some target
         ∧ Py.startswith target "http" = true).
Proof. exact (elem_of_extract_links parsed kind target). Qed.

Lemma elem_of_foldl_add_link links urls locals target :
  (target ∈ (foldl add_link (urls, locals) links).1
   ↔ target ∈ urls ∨ ∃ kind, (kind, target) ∈ links ∧ kind ≠ "local_image")
  ∧ (target ∈ (foldl add_link (urls, locals) links).2
     ↔ target ∈ locals ∨ ("local_image", target) ∈ links).
Proof.
  revert urls locals. induction links as [|[kind u] links IH]; intros urls locals.
  - cbn. split; split; try (by left).
    + intros [?|(k & ?%elem_of_nil & _)]; done.
    + intros [?|?%elem_of_nil]; done.
  - cbn [foldl add_link]. destruct (String.eqb_spec kind "local_image") as [->|Hk].
    + destruct (IH urls ({[u]} ∪ locals)) as [-> ->]. split.
      * split.
        -- intros [?|(k & Hin & Hne)]; [by left|]. right. exists k.
           split; [by apply list_elem_of_further|done].
        -- intros [?|(k & Hin & Hne)]; [by left|]. right. exists k. split; [|done].
           apply elem_of_cons in Hin as [[= -> ->]|]; done.
      * rewrite elem_of_union, elem_of_singleton, elem_of_cons. split.
        -- intros [[->|?]|?]; [right; by left|by left|right; by right].
        -- intros [?|[[= ->]|?]]; [left; by right|left; by left|by right].
    + destruct (IH ({[u]} ∪ urls) locals) as [-> ->]. split.
      * rewrite elem_of_union, elem_of_singleton. split.
        -- intros [[->|?]|(k & Hin & Hne)]; [|by left|].
           ++ right. exists kind. split; [apply list_elem_of_here|done].
           ++ right. exists k. split; [by apply list_elem_of_further|done].
        -- intros [?|(k & Hin & Hne)]; [left; by right|].
           apply elem_of_cons in Hin as [[= -> ->]|Hin]; [left; by left|].
           right. by exists k.
      * rewrite elem_of_cons. split.
        -- intros [?|?]; [by left|right; by right].
        -- intros [?|[[= ? ?]|?]]; [by left|by subst|by right].
Qed.

Lemma elem_of_unique_targets all_links target :
  (target ∈ (unique_targets all_links).1
   ↔ ∃ html_file links kind, (html_file, links) ∈ all_links
       ∧ (kind, target) ∈ links ∧ kind ≠ "local_image")
  ∧ (target ∈ (unique_targets all_links).2
     ↔ ∃ html_file links, (html_file, links) ∈ all_links
         ∧ ("local_image", target) ∈ links).
Proof.
  unfold unique_targets.
  assert (Hgen : ∀ sets : gset string * gset string,
    (target ∈ (foldl (λ sets f, foldl add_link sets f.2) sets all_links).1
     ↔ target ∈ sets.1 ∨ ∃ html_file links kind, (html_file, links) ∈ all_links
         ∧ (kind, target) ∈ links ∧ kind ≠ "local_image")
    ∧ (target ∈ (foldl (λ sets f, foldl add_link sets f.2) sets all_links).2
       ↔ target ∈ sets.2 ∨ ∃ html_file links, (html_file, links) ∈ all_links
           ∧ ("local_image", target) ∈ links)).
  { induction all_links as [|[html_file links] all_links IH]; intros sets.
    - cbn. split; split; try (by left).
      + intros [?|(? & ? & ? & ?%elem_of_nil & _)]; done.
      + intros [?|(? & ? & ?%elem_of_nil & _)]; done.
    - cbn [foldl snd]. destruct (IH (foldl add_link sets links)) as [-> ->].
      destruct sets as [urls locals].
      destruct (elem_of_foldl_add_link links urls locals target) as [-> ->].
      cbn [fst snd]. split; split.
      + intros [[?|(k & Hin & Hne)]|(f & ls & k & Hin & Hl & Hne)]; [by left| |].
        * right. exists html_file, links, k. split; [apply list_elem_of_here|done].
        * right. exists f, ls, k. split; [by apply list_elem_of_further|done].
      + intros [?|(f & ls & k & Hin & Hl & Hne)]; [left; by left|].
        apply elem_of_cons in Hin as [[= -> ->]|Hin].
        * left. right. by exists k.
        * right. by exists f, ls, k.
      + intros [[?|Hin]|(f & ls & Hin & Hl)]; [by left| |].
        * right. exists html_file, links. split; [apply list_elem_of_here|done].
        * right. exists f, ls. split; [by apply list_elem_of_further|done].
      + intros [?|(f & ls & Hin & Hl)]; [left; by left|].
        apply elem_of_cons in Hin as [[= -> ->]|Hin].
        * left. by right.
        * right. by exists f, ls. }
  destruct (Hgen (∅, ∅)) as [H1 H2]. rewrite H1, H2. cbn [fst snd].
  split; split; try (intros [?%elem_of_empty|?]; done); by right.
Qed.

(** Phase 2 sends every link to exactly one place: a target is in
    [unique_urls] exactly when some file has it as a link of a kind other
    than local_image, and in [unique_local_files] exactly when some file
    has it as a local image. *)
Theorem unique_targets_spec all_links target :
  (target ∈ (unique_targets all_links).1
   ↔ ∃ html_file links kind, (html_file, links) ∈ all_links
       ∧ (kind, target) ∈ links ∧ kind ≠ "local_image")
  ∧ (target ∈ (unique_targets all_links).2
     ↔ ∃ html_file links, (html_file, links) ∈ all_links
         ∧ ("local_image", target) ∈ links).
Proof. exact (elem_of_unique_targets all_links target). Qed.

(** After phases 1 and 2 every URL to be checked remotely starts with
    [http] and no local file does: no target is both checked as a URL and
    looked up as a file. *)
Theorem remote_and_local_targets_are_apart html_files :
  let sets := unique_targets (collect_links html_files) in
  (∀ url, url ∈ sets.1 → Py.startswith url "http" = true)
  ∧ (∀ file_path, file_path ∈ sets.2 → Py.startswith file_path "http" = false)
  ∧ sets.1 ## sets.2.
Proof.
  cbn zeta.
  assert (Hu : ∀ url, url ∈ (unique_targets (collect_links html_files)).1 →
               Py.startswith url "http" = true).
  { intros url Hin.
    apply (elem_of_unique_targets (collect_links html_files) url)
      in Hin as (f & ls & k & Hf & Hl & Hne).
    apply list_elem_of_fmap in Hf as ([name parsed] & [= -> ->] & _).
    apply elem_of_extract_links in Hl
      as (soup & t & _ & _ & [H|[H|[H|H]]]); [by destruct_and!.. | | ].
    - by destruct H as (-> & _).
    - by destruct_and!. }
  assert (Hl : ∀ p, p ∈ (unique_targets (collect_links html_files)).2 →
               Py.startswith p "http" = false).
  { intros p Hin.
    apply (elem_of_unique_targets (collect_links html_files) p)
      in Hin as (f & ls & Hf & Hl).
    apply list_elem_of_fmap in Hf as ([name parsed] & [= -> ->] & _).
    apply elem_of_extract_links in Hl
      as (soup & t & _ & _ & [H|[H|[H|H]]]);
      destruct H as (Hk & H); try discriminate Hk. by destruct_and!. }
  split; [exact Hu|]. split; [exact Hl|].
  intros x Hx1 Hx2. specialize (Hu x Hx1). specialize (Hl x Hx2). congruence.
Qed.

(** ** Local files *)

(** A path that starts with [/] is looked up as it is: [os.path.join]
    drops the directory in front of an absolute path, so neither the HTML
    directory nor its parent plays a part. *)
Theorem check_local_file_absolute path_exists file_path dir :
  Py.startswith file_path "/" = true →
  check_local_file path_exists file_path dir =
  if path_exists file_path then (true, "File exists") else (false, "File not found").
Proof.
  intros Habs. unfold check_local_file, posixpath.join. rewrite Habs.
  by destruct (path_exists file_path).
Qed.

Lemma lookup_check_local_files path_exists files file_path :
  check_local_files path_exists files !! file_path =
  if decide (file_path ∈ files)
  then Some (check_local_file path_exists file_path html_dir) else None.
Proof.
  unfold check_local_files.
  by rewrite (lookup_foldl_insert (λ p, check_local_file path_exists p html_dir)),
    lookup_empty.
Qed.

(** Phase 3 records, for each local file and for nothing else, what
    [check_local_file] says about it; a file listed twice is still one
    entry. *)
Theorem check_local_files_lookup path_exists files file_path :
  check_local_files path_exists files !! file_path =
  if decide (file_path ∈ files)
  then Some (check_local_file path_exists file_path html_dir) else None.
Proof. exact (lookup_check_local_files path_exists files file_path). Qed.

(** ** The progress counters of phase 4 *)

Lemma map_to_list_disj_union {V} (m1 m2 : gmap string V) :
  m1 ##ₘ m2 → map_to_list (m1 ∪ m2) ≡ₚ map_to_list m1 ++ map_to_list m2.
Proof.
  intros Hdisj. apply NoDup_Permutation.
  - apply NoDup_map_to_list.
  - apply NoDup_app. split; [apply NoDup_map_to_list|]. split; [|apply NoDup_map_to_list].
    intros [k v] H1%elem_of_map_to_list H2%elem_of_map_to_list.
    by pose proof (map_disjoint_spec m1 m2) as [Hd _]; eapply (Hd Hdisj).
  - intros [k v]. rewrite elem_of_app, !elem_of_map_to_list.
    by rewrite lookup_union_Some.
Qed.

Lemma batch_broken_disj_union (m1 m2 : gmap string (option Z * string)) :
  m1 ##ₘ m2 → batch_broken (m1 ∪ m2) = (batch_broken m1 + batch_broken m2)%nat.
Proof.
  intros Hdisj. unfold batch_broken.
  by rewrite (map_to_list_disj_union _ _ Hdisj), filter_app, length_app.
Qed.

Lemma collect_batches_snoc completed r :
  collect_batches (completed ++ [r]) = collect_batch (collect_batches completed) r.
Proof. unfold collect_batches. by rewrite foldl_snoc. Qed.

Lemma merge_batches_snoc {V} (completed : list (gmap string V)) r :
  merge_batches (completed ++ [r]) = dict_update (merge_batches completed) r.
Proof. unfold merge_batches. by rewrite foldl_snoc. Qed.

(** The [as_completed] loop. Its map is the merge of the finished
    batches and [completed_batches] is their number; when no URL is in
    two batches, [broken_url_count] is the number of failing URLs of the
    merged map. *)
Theorem progress_counts_failing_urls completed :
  disjoint_batches completed →
  let p := collect_batches completed in
  url_status p = merge_batches completed
  ∧ completed_batches p = length completed
  ∧ broken_url_count p = batch_broken (url_status p).
Proof.
  cbn zeta. induction completed as [|r completed IH] using rev_ind; intros Hdis.
  - by cbn.
  - rewrite collect_batches_snoc, merge_batches_snoc, length_app.
    destruct IH as (Hmap & Hlen & Hcount).
    { intros i j b1 b2 Hne Hi Hj. apply (Hdis i j b1 b2 Hne).
      - by apply lookup_app_l_Some.
      - by apply lookup_app_l_Some. }
    cbn [collect_batch url_status completed_batches broken_url_count length].
    rewrite Hmap, Hlen. split; [done|]. split; [lia|].
    rewrite Hcount, Hmap. unfold dict_update.
    rewrite batch_broken_disj_union; [lia|].
    apply map_disjoint_spec. intros k v1 v2 Hr Hm.
    destruct (lookup_merge_batches _ _ _ Hm) as (b & [i Hi]%list_elem_of_lookup & Hb).
    assert (Hlt : (i < length completed)%nat) by by eapply lookup_lt_Some.
    pose proof (Hdis i (length completed) b r) as Hd.
    assert (dom b ## dom r) as Hdom.
    { apply Hd; [lia|by apply lookup_app_l_Some|].
      rewrite lookup_app_r by lia. by rewrite Nat.sub_diag. }
    apply (Hdom k); apply elem_of_dom; eauto.
Qed.

(** ** The whole run *)

Lemma scan_files_is_Some lfs us all_links st :
  is_Some (scan_files lfs us st all_links)
  ↔ Forall (λ f, is_Some (file_issues lfs us f.2)) all_links.
Proof.
  revert st. induction all_links as [|[html_file links] all_links IH]; intros st.
  - split; [constructor|by eexists].
  - rewrite Forall_cons. cbn [scan_files snd]. rewrite scan_links_eq.
    destruct (file_issues lfs us links) as [issues|];
      cbn [fmap option_fmap option_map].
    + rewrite IH. split; [by (split; [eexists|])|by intros [_ ?]].
    + split; [by intros [? ?]|by intros [[? ?] _]].
Qed.

Section WholeRun.

Variable netloc : string → string.
Variable remote : string → server.
Variable path_exists : string → bool.

(** The report finds a status for every link. Whatever the files contain,
    when the local files and the URLs that were checked are the unique
    targets of phase 2, every batch returned its results and these were
    merged in any order, phase 5 meets no missing key and produces its
    issue lists and counters. *)
Theorem report_finds_every_status all_links files urls rs completed :
  list_to_set files = (unique_targets all_links).2 →
  list_to_set urls = (unique_targets all_links).1 →
  Forall2 (λ batch r, ∃ w, (check_url_batch netloc remote batch w).1 = Ok r)
          (url_batches urls) rs →
  completed ≡ₚ rs →
  is_Some (scan_files (check_local_files path_exists files)
                      (merge_batches completed) ([], Tally 0 0 0) all_links).
Proof.
  intros Hfiles Hurls Hrs Hperm. apply scan_files_is_Some.
  apply Forall_forall. intros [html_file links] Hf. cbn [snd].
  apply file_issues_is_Some, Forall_forall. intros [kind target] Hl. cbn [fst snd].
  destruct (String.eqb_spec kind "local_image") as [->|Hk].
  - rewrite lookup_check_local_files, decide_True; [by eexists|].
    apply (elem_of_list_to_set (C := gset string)). rewrite Hfiles.
    apply elem_of_unique_targets. by exists html_file, links.
  - destruct (merged_status_lookup netloc remote urls rs completed Hrs Hperm)
      as [_ Hlook].
    destruct (Hlook target) as (r & -> & _); [|by eexists].
    apply (elem_of_list_to_set (C := gset string)). rewrite Hurls.
    apply elem_of_unique_targets. by exists html_file, links, kind.
Qed.

End WholeRun.

(** ** Instances *)

Lemma returned_status_is_last_answer_witness :
  let remote := always (Failure "Connection refused") (Response 404 "Not Found") in
  (check_url_with_rate_limit simple_netloc remote "https://example.org/a"
     fresh_world).1 = Ok (Some 404, "Not Found (GET only)")
  ∧ Some 404 = Some 404.
Proof.
  cbn zeta. split; [reflexivity|].
  exact (returned_status_is_last_answer simple_netloc
           (always (Failure "Connection refused") (Response 404 "Not Found"))
           "https://example.org/a" fresh_world (Some 404) "Not Found (GET only)"
           eq_refl).
Defined.

Lemma check_touches_only_its_domain_witness :
  let remote := always (Response 200 "OK") (Response 200 "OK") in
  let w := World 1700000000000 {["other.example" := 1699999999000]} [] in
  let w' := (check_url_with_rate_limit simple_netloc remote
               "https://example.org/a" w).2 in
  domain_last_request w' !! "other.example" = Some 1699999999000
  ∧ clock w ≤ clock w'
  ∧ ∃ evs, trace w' = trace w ++ evs.
Proof.
  cbn zeta.
  destruct (check_touches_only_its_domain simple_netloc
              (always (Response 200 "OK") (Response 200 "OK"))
              "https://example.org/a"
              (World 1700000000000 {["other.example" := 1699999999000]} [])
              "other.example") as (Hframe & Hclock & Htrace).
  - vm_compute. discriminate.
  - vm_compute. discriminate.
  - vm_compute. discriminate.
  - split; [|split; [exact Hclock|exact Htrace]].
    rewrite Hframe. vm_compute. reflexivity.
Defined.

Lemma second_check_waits_witness :
  let remote := always (Response 200 "OK") (Response 200 "OK") in
  let w1 := (check_url_with_rate_limit simple_netloc remote
               "https://example.org/a" fresh_world).2 in
  let w2 := (check_url_with_rate_limit simple_netloc remote
               "https://example.org/b" w1).2 in
  ∃ stamp sent pre post,
    domain_last_request w1 !! "example.org" = Some stamp
    ∧ trace w2 = trace w1 ++ pre ++ Head "https://example.org/b" sent :: post
    ∧ stamp + 500 ≤ sent.
Proof.
  cbn zeta.
  exact (second_check_waits simple_netloc
           (always (Response 200 "OK") (Response 200 "OK"))
           "https://example.org/a" "https://example.org/b" fresh_world eq_refl).
Defined.

Lemma two_urls_batches :
  Forall2 (λ batch r, ∃ w, (check_url_batch simple_netloc two_urls_remote
                              batch w).1 = Ok r)
          (url_batches two_urls) [two_urls_result].
Proof.
  change (url_batches two_urls) with [two_urls].
  constructor; [|constructor]. exists fresh_world. vm_compute. reflexivity.
Qed.

Lemma every_unique_url_gets_its_status_witness :
  dom (merge_batches [two_urls_result]) = list_to_set two_urls
  ∧ ∀ url, url ∈ two_urls →
      ∃ r, merge_batches [two_urls_result] !! url = Some r
           ∧ ∀ w, (check_url_with_rate_limit simple_netloc two_urls_remote
                     url w).1 = Ok r.
Proof.
  exact (every_unique_url_gets_its_status simple_netloc two_urls_remote
           two_urls [two_urls_result] [two_urls_result] two_urls_batches
           (Permutation_refl _)).
Defined.

Lemma report_finds_every_status_witness :
  is_Some (scan_files (check_local_files only_in_project_root ["img/x.png"])
                      (merge_batches [two_urls_result]) ([], Tally 0 0 0)
                      sample_links).
Proof.
  apply (report_finds_every_status simple_netloc two_urls_remote
           only_in_project_root sample_links ["img/x.png"] two_urls
           [two_urls_result] [two_urls_result]).
  - vm_compute. reflexivity.
  - vm_compute. reflexivity.
  - exact two_urls_batches.
  - reflexivity.
Defined.

Lemma report_counters_add_up_witness :
  ∃ listed t,
    scan_files (check_local_files only_in_project_root ["img/x.png"])
               (merge_batches [two_urls_result]) ([], Tally 0 0 0) sample_links
      = Some (listed, t)
    ∧ listed.*1 = ["index.html"]
    ∧ t = Tally 2 0 2
    ∧ broken_count t = (browser_working_count t + definitely_broken_count t)%nat
    ∧ broken_count t = length (concat listed.*2).
Proof.
  destruct (scan_files (check_local_files only_in_project_root ["img/x.png"])
              (merge_batches [two_urls_result]) ([], Tally 0 0 0) sample_links)
    as [[listed t]|] eqn:Hscan; [|vm_compute in Hscan; discriminate].
  exists listed, t. split; [reflexivity|].
  destruct (report_counters_add_up _ _ _ _ _ Hscan) as (Hsum & Hlen & _).
  vm_compute in Hscan. injection Hscan as <- <-.
  split; [reflexivity|]. split; [reflexivity|]. split; [exact Hsum|exact Hlen].
Defined.

Lemma report_sections_partition_the_issues_witness :
  ∃ issues,
    file_issues (check_local_files only_in_project_root ["img/x.png"])
                (merge_batches [two_urls_result])
                [("link", "https://a.example/"); ("local_image", "img/x.png");
                 ("link", "https://b.example/x")] = Some issues
    ∧ length issues = 2%nat
    ∧ issues ≡ₚ in_category "broken" issues ++ in_category "browser_ok" issues
                ++ in_category "maybe_ok" issues.
Proof.
  destruct (file_issues (check_local_files only_in_project_root ["img/x.png"])
              (merge_batches [two_urls_result])
              [("link", "https://a.example/"); ("local_image", "img/x.png");
               ("link", "https://b.example/x")])
    as [issues|] eqn:Hissues; [|vm_compute in Hissues; discriminate].
  exists issues. split; [reflexivity|]. split.
  - vm_compute in Hissues. by injection Hissues as <-.
  - exact (report_sections_partition_the_issues _ _ _ _ Hissues).
Defined.

Lemma extracted_links_are_well_typed_witness :
  let soup := [Tag "a" [("href", "https://a.example/")];
               Tag "img" [("src", "img/x.png"); ("alt", "")]] in
  ∃ t, t ∈ soup ∧ tag_name t = "img"
       ∧ assoc "src" (tag_attrs t) = Some "img/x.png"
       ∧ Py.startswith "img/x.png" "http" = false.
Proof.
  cbn zeta.
  destruct (extracted_links_are_well_typed
              (Some [Tag "a" [("href", "https://a.example/")];
                     Tag "img" [("src", "img/x.png"); ("alt", "")]])
              "local_image" "img/x.png")
    as (soup & t & Hsoup & Ht & H).
  - vm_compute. apply list_elem_of_further, list_elem_of_here.
  - injection Hsoup as <-. exists t. split; [exact Ht|].
    destruct H as [H|[H|[H|H]]]; destruct H as (Hk & H); try discriminate Hk.
    destruct H as (Hn & Ha & Hh & _). by repeat split.
Defined.

Lemma check_local_file_absolute_witness :
  check_local_file (λ path, String.eqb path "/srv/site/logo.png")
                   "/srv/site/logo.png" html_dir = (true, "File exists").
Proof.
  exact (check_local_file_absolute (λ path, String.eqb path "/srv/site/logo.png")
           "/srv/site/logo.png" html_dir eq_refl).
Defined.

Lemma progress_counts_failing_urls_witness :
  let b1 : gmap string (option Z * string) :=
    {["https://a.example/" := (Some 200, "OK")]} in
  let b2 : gmap string (option Z * string) :=
    {["https://b.example/x" := (Some 404, "Not Found")]} in
  let p := collect_batches [b2; b1] in
  url_status p = merge_batches [b2; b1]
  ∧ completed_batches p = 2%nat
  ∧ broken_url_count p = batch_broken (url_status p).
Proof.
  cbn zeta. apply progress_counts_failing_urls.
  intros i j c1 c2 Hne Hi Hj.
  destruct i as [|[|i]], j as [|[|j]]; simplify_eq/=;
    rewrite !dom_singleton_L; apply disjoint_singleton_l;
    rewrite elem_of_singleton; discriminate.
Defined.


